(** * Association-rule mining pipeline of [Instacart_association.ipynb]

    A shallow embedding of the notebook's helper functions ([freq],
    [order_count], [get_item_pairs], [merge_item_stats]) and of its main
    function [association_rules], together with the properties of the
    pipeline that the specification states.

    Modelling conventions.
    - The input [order_item] is a pandas Series whose index holds the
      [order_id] and whose values hold the [item_id]; it is a list of
      rows [(order_id, item_id)] in stream order.
    - Python integers are [Z] (identifiers) and [nat] (counts).
    - pandas float columns are idealised as exact rationals [Q]; equality
      of such values is [Qeq] ([==]).  Where rounding decides a statement
      (the comparison of a support with the threshold), the float columns
      are binary64 numbers, in [Float64].
    - A generator is the finite list of the values it yields, in order.
    - A [dict] (and the Series built from it) is an association list in
      insertion order.
    - A raised Python exception is the [Raise] case of [result]. *)

From Stdlib Require Import QArith.
From Stdlib Require Import Floats.SpecFloat.
From stdpp Require Import base numbers list sorting gmap strings.

Open Scope nat_scope.
Open Scope stdpp_scope.

(** ** Exceptions *)

Inductive exn : Type :=
  | KeyError (label : string).

Inductive result (A : Type) : Type :=
  | Ok (a : A)
  | Raise (e : exn).
Arguments Ok {A} a.
Arguments Raise {A} e.

Definition result_bind {A B} (r : result A) (f : A → result B) : result B :=
  match r with
  | Ok a => f a
  | Raise e => Raise e
  end.

(** ** Frequency counter *)

Section counting.
Context {K : Type} `{Countable K}.

(** Number of positions of [l] holding [k]. *)
Definition occurrences (k : K) (l : list K) : nat :=
  length (filter (λ x, x = k) l).

(** One step of [Counter.update]: [self[elem] = self.get(elem, 0) + 1].
    A new key goes to the end, as in a Python [dict]. *)
Fixpoint counter_incr (k : K) (c : list (K * nat)) : list (K * nat) :=
  match c with
  | [] => [(k, 1)]
  | (k', n) :: c' =>
      if decide (k = k') then (k', S n) :: c'
      else (k', n) :: counter_incr k c'
  end.

(** [collections.Counter(iterable)]. *)
Definition Counter (iterable : list K) : list (K * nat) :=
  foldl (λ c k, counter_incr k c) [] iterable.

(** [c.get(k, 0)] on a count table. *)
Fixpoint get_count (k : K) (c : list (K * nat)) : nat :=
  match c with
  | [] => 0
  | (k', n) :: c' => if decide (k = k') then n else get_count k c'
  end.

(** [c] maps exactly the distinct elements of [l], each once, to the
    number of its occurrences in [l]. *)
Definition count_table (l : list K) (c : list (K * nat)) : Prop :=
  NoDup c.*1 ∧ ∀ k n, (k, n) ∈ c ↔ k ∈ l ∧ n = occurrences k l.

(** Descending order on the count column. *)
Definition count_desc (x y : K * nat) : Prop := y.2 ≤ x.2.

#[global] Instance count_desc_dec : RelDecision count_desc.
Proof. intros x y. unfold count_desc. apply _. Defined.

(** [Series.value_counts()]: one row per distinct value, with its number
    of occurrences, sorted by that number in descending order. *)
Definition value_counts (values : list K) : list (K * nat) :=
  merge_sort count_desc
             ((λ k, (k, occurrences k values)) <$> remove_dups values).

(** The argument of [freq] with its runtime type: the test
    [type(iterable) == pd.core.series.Series] is a match on this tag. *)
Inductive iterable_arg : Type :=
  | PdSeries (values : list K)
  | PyIterable (elems : list K).

(** [freq]: the result of both branches is a Series key -> count (the
    [rename("freq")] only names the column). *)
Definition freq (iterable : iterable_arg) : list (K * nat) :=
  match iterable with
  | PdSeries values => value_counts values
  | PyIterable elems => Counter elems
  end.

(** The elements of the argument, whatever its runtime type. *)
Definition iterable_elems (iterable : iterable_arg) : list K :=
  match iterable with
  | PdSeries values => values
  | PyIterable elems => elems
  end.

(** The counter as the specification words it: one generic counting
    function over the key type, without a branch on the runtime type,
    returning a mapping from distinct key to occurrence count. *)
Definition count_keys (keys : list K) : gmap K nat :=
  foldl (λ m k, <[k := S (default 0 (m !! k))]> m) ∅ keys.

End counting.

Arguments iterable_arg K : clear implicits.

(** ** The order stream *)

(** The Series [order_item]: rows [(order_id, item_id)] in stream order. *)
Abbreviation Series := (list (Z * Z)).

(** [order_item.index] and the values of the Series. *)
Definition index (order_item : Series) : list Z := order_item.*1.
Definition values (order_item : Series) : list Z := order_item.*2.

(** [order_count]: [len(set(order_item.index))]. *)
Definition order_count (order_item : Series) : nat :=
  size (list_to_set (index order_item) : gset Z).

(** ** Pair generator *)

Section pair_generator.
Context {A K : Type} `{EqDecision K}.

(** [itertools.groupby(iterable, key)]: consecutive elements with equal
    keys form one group; a new group starts whenever the key changes.
    [groupby_run k cur l] is the iterator in the middle of a run with key
    [k] whose elements seen so far are [cur]. *)
Fixpoint groupby_run (key : A → K) (k : K) (cur : list A) (l : list A)
  : list (K * list A) :=
  match l with
  | [] => [(k, cur)]
  | x :: l' =>
      if decide (key x = k) then groupby_run key k (cur ++ [x]) l'
      else (k, cur) :: groupby_run key (key x) [x] l'
  end.

Definition groupby (key : A → K) (l : list A) : list (K * list A) :=
  match l with
  | [] => []
  | x :: l' => groupby_run key (key x) [x] l'
  end.

(** [itertools.combinations(pool, 2)]: the pairs [(pool[i], pool[j])]
    with [i < j], in lexicographic order of the positions. *)
Fixpoint combinations2 (pool : list A) : list (A * A) :=
  match pool with
  | [] => []
  | x :: rest => (pair x <$> rest) ++ combinations2 rest
  end.
End pair_generator.

(** [get_item_pairs]: for every group of the stream, the item list of the
    group and then every 2-combination of it, yielded one at a time. *)
Definition get_item_pairs (order_item : Series) : list (Z * Z) :=
  '(order_id, order_object) ← groupby fst order_item;
  let item_list := snd <$> order_object in
  combinations2 item_list.

(** The input contract: all rows of one order are contiguous.  A row is
    followed by a row of the same order, or its order never comes back. *)
Fixpoint grouped (order_item : Series) : bool :=
  match order_item with
  | [] => true
  | row :: rest =>
      match rest with
      | [] => true
      | next :: _ =>
          bool_decide (row.1 = next.1 ∨ row.1 ∉ index rest) && grouped rest
      end
  end.

(** The same contract, said on positions: between two rows of one order
    there are only rows of that order. *)
Definition contiguous (order_item : Series) : Prop :=
  ∀ l1 x l2 y l3,
    order_item = l1 ++ x :: l2 ++ y :: l3 → x.1 = y.1 →
    Forall (λ z, z.1 = x.1) l2.

(** The items of order [o], in stream order. *)
Definition order_items (order_item : Series) (o : Z) : list Z :=
  snd <$> filter (λ row, row.1 = o) order_item.

(** The pairs that [get_item_pairs] yields while it is in a group whose
    key is [o]. *)
Definition pairs_of_order (order_item : Series) (o : Z) : list (Z * Z) :=
  '(order_id, order_object) ←
     filter (λ kg, kg.1 = o) (groupby fst order_item);
  combinations2 (snd <$> order_object).

(** ** Item statistics *)

(** [count / total * 100] on floats, here on rationals.  Dividing by [0]
    gives [0] in [Q]; the pipeline only divides by a zero order count on
    an empty column, see [percent_denominator] below. *)
Definition percent (count total : nat) : Q :=
  (inject_Z (Z.of_nat count) / inject_Z (Z.of_nat total) * 100)%Q.

#[global] Instance Qle_dec : RelDecision Qle :=
  λ x y, decide (Qnum x * QDen y ≤ Qnum y * QDen x)%Z.

(** A row of [item_stats]: the item (index), [freq] and [support]. *)
Record item_stat : Type := ItemStat {
  stat_item : Z;
  stat_freq : nat;
  stat_support : Q
}.

(** [item_stats = freq(order_item).to_frame("freq")] followed by
    [item_stats['support'] = item_stats['freq'] / order_count(order_item) * 100]. *)
Definition item_statistics (order_item : Series) : list item_stat :=
  let total := order_count order_item in
  (λ kv, ItemStat kv.1 kv.2 (percent kv.2 total))
    <$> freq (PdSeries (values order_item)).

(** ** Two-stage support filter *)

(** [item_stats[item_stats['support'] >= min_support].index] *)
Definition qualifying_items (item_stats : list item_stat) (min_support : Q)
  : list Z :=
  stat_item <$> filter (λ s, (min_support <= stat_support s)%Q) item_stats.

(** [order_item[order_item.isin(qualifying_items)]] *)
Definition filter_items (order_item : Series) (qualifying_items : list Z)
  : Series :=
  filter (λ row, row.2 ∈ qualifying_items) order_item.

(** [order_size[order_size >= 2].index] with
    [order_size = freq(order_item.index)]; the index is not a Series, so
    [freq] takes its [Counter] branch. *)
Definition qualifying_orders (order_item : Series) : list Z :=
  let order_size := freq (PyIterable (index order_item)) in
  fst <$> filter (λ kv, 2 ≤ kv.2) order_size.

(** [order_item[order_item.index.isin(qualifying_orders)]] *)
Definition filter_orders (order_item : Series) (qualifying_orders : list Z)
  : Series :=
  filter (λ row, row.1 ∈ qualifying_orders) order_item.

(** ** Pair statistics as a DataFrame *)

(** A row of [item_pairs]: the pair key, [freqAB], [supportAB]. *)
Record pair_row : Type := PairRow {
  pair_key : Z * Z;
  pair_freqAB : nat;
  pair_supportAB : Q
}.

(** The index that [pd.Series(Counter(...))] builds: tuple keys give a
    two-level [MultiIndex]; an empty [Counter] has no tuple to infer the
    levels from and gives a plain one-level index. *)
Inductive pd_index : Type :=
  | PlainIndex
  | MultiIndex2.

(** [item_pairs] while the pair key is the index of the frame. *)
Record indexed_frame : Type := IndexedFrame {
  frame_index : pd_index;
  frame_rows : list pair_row
}.

(** [item_pairs] after [reset_index()]: the key is held in columns, whose
    labels are [key_columns] (first label for the first member of the
    key, second label for the second member). *)
Record flat_frame : Type := FlatFrame {
  key_columns : list string;
  flat_rows : list pair_row
}.

(** [freq(item_pair_gen).to_frame("freqAB")] together with
    [item_pairs['supportAB'] = item_pairs['freqAB'] / len(qualifying_orders) * 100]. *)
Definition pair_statistics (item_pair_gen : list (Z * Z)) (n_orders : nat)
  : indexed_frame :=
  let counts := freq (PyIterable item_pair_gen) in
  IndexedFrame (match counts with [] => PlainIndex | _ => MultiIndex2 end)
               ((λ kv, PairRow kv.1 kv.2 (percent kv.2 n_orders)) <$> counts).

(** [item_pairs[item_pairs['supportAB'] >= min_support]]: a boolean mask
    keeps the index of the frame. *)
Definition filter_pairs (item_pairs : indexed_frame) (min_support : Q)
  : indexed_frame :=
  IndexedFrame (frame_index item_pairs)
               (filter (λ p, (min_support <= pair_supportAB p)%Q)
                       (frame_rows item_pairs)).

(** [reset_index()]: unnamed levels of a [MultiIndex] become the columns
    [level_0], [level_1]; an unnamed plain index becomes the column
    [index]. *)
Definition reset_index (item_pairs : indexed_frame) : flat_frame :=
  FlatFrame (match frame_index item_pairs with
             | MultiIndex2 => ["level_0"; "level_1"]
             | PlainIndex => ["index"]
             end)%string
            (frame_rows item_pairs).

(** [rename(columns=mapper)]: labels absent from the frame are ignored. *)
Definition rename_columns (mapper : list (string * string))
    (item_pairs : flat_frame) : flat_frame :=
  FlatFrame ((λ c, default c ((list_to_map mapper : gmap string string) !! c))
               <$> key_columns item_pairs)
            (flat_rows item_pairs).

(** Reading a key column by its label: [KeyError] when the frame has no
    such column. *)
Definition key_column (label : string) (item_pairs : flat_frame)
  : result (pair_row → Z) :=
  match list_find (λ c, c = label) (key_columns item_pairs) with
  | Some (0, _) => Ok (λ p, (pair_key p).1)
  | Some (1, _) => Ok (λ p, (pair_key p).2)
  | _ => Raise (KeyError label)
  end.

(** One [merge(item_stats, left_on=label, right_index=True)]: an inner
    join of the left rows with the rows of [item_stats] for the item in
    column [label]. *)
Definition merge_on {L : Type} (item_of : L → Z) (left : list L)
    (item_stats : list item_stat) : list (L * item_stat) :=
  l ← left;
  s ← filter (λ s, stat_item s = item_of l) item_stats;
  [(l, s)].

(** [merge_item_stats]: the statistics of [item_A], then of [item_B]. *)
Definition merge_item_stats (item_pairs : flat_frame)
    (item_stats : list item_stat)
  : result (list (pair_row * item_stat * item_stat)) :=
  result_bind (key_column "item_A" item_pairs) (λ item_A,
  result_bind (key_column "item_B" item_pairs) (λ item_B,
  Ok (merge_on (λ l, item_B l.1)
               (merge_on item_A (flat_rows item_pairs) item_stats)
               item_stats))).

(** ** Metrics engine *)

(** A row of the returned table. *)
Record rule : Type := Rule {
  item_A : Z;
  item_B : Z;
  freqAB : nat;
  supportAB : Q;
  freqA : nat;
  supportA : Q;
  freqB : nat;
  supportB : Q;
  confidenceAtoB : Q;
  confidenceBtoA : Q;
  lift : Q
}.

(** The three metric columns computed from a merged row. *)
Definition add_metrics (m : pair_row * item_stat * item_stat) : rule :=
  let '(p, a, b) := m in
  let supportAB := pair_supportAB p in
  let supportA := stat_support a in
  let supportB := stat_support b in
  Rule (pair_key p).1 (pair_key p).2
       (pair_freqAB p) supportAB
       (stat_freq a) supportA
       (stat_freq b) supportB
       (supportAB / supportA)%Q
       (supportAB / supportB)%Q
       (supportAB / (supportA * supportB))%Q.

(** Descending order on the [lift] column. *)
Definition lift_desc (r1 r2 : rule) : Prop := (lift r2 <= lift r1)%Q.

#[global] Instance lift_desc_dec : RelDecision lift_desc.
Proof. intros r1 r2. unfold lift_desc. apply _. Defined.

(** [sort_values('lift', ascending=False)].  pandas leaves the order of
    rows with equal lift to its sorting algorithm; any sort will do. *)
Definition sort_by_lift_desc (rules : list rule) : list rule :=
  merge_sort lift_desc rules.

(** ** The pipeline *)

(** The stream after the item filter and after the order filter. *)
Definition stage_items (order_item : Series) (min_support : Q) : Series :=
  filter_items order_item
    (qualifying_items (item_statistics order_item) min_support).

Definition stage_orders (order_item : Series) (min_support : Q) : Series :=
  let order_item := stage_items order_item min_support in
  filter_orders order_item (qualifying_orders order_item).

(** [association_rules(order_item, min_support)]; the [print] calls only
    report the sizes of the intermediate tables. *)
Definition association_rules (order_item : Series) (min_support : Q)
  : result (list rule) :=
  (* Calculate item frequency and support *)
  let item_stats := item_statistics order_item in
  (* Filter from order_item items below min support *)
  let qualifying_items := qualifying_items item_stats min_support in
  let order_item := filter_items order_item qualifying_items in
  (* Filter from order_item orders with less than 2 items *)
  let qualifying_orders := qualifying_orders order_item in
  let order_item := filter_orders order_item qualifying_orders in
  (* Recalculate item frequency and support *)
  let item_stats := item_statistics order_item in
  (* Get item pairs generator *)
  let item_pair_gen := get_item_pairs order_item in
  (* Calculate item pair frequency and support *)
  let item_pairs := pair_statistics item_pair_gen (length qualifying_orders) in
  (* Filter from item_pairs those below min support *)
  let item_pairs := filter_pairs item_pairs min_support in
  (* Create table of association rules and compute relevant metrics *)
  let item_pairs :=
    rename_columns [("level_0", "item_A"); ("level_1", "item_B")]%string
                   (reset_index item_pairs) in
  result_bind (merge_item_stats item_pairs item_stats) (λ item_pairs,
  let item_pairs := add_metrics <$> item_pairs in
  (* Return association rules sorted by lift in descending order *)
  Ok (sort_by_lift_desc item_pairs)).

(** ** Names for the intermediate tables of the pipeline *)

(** The pair counts. *)
Definition counted_pairs (order_item : Series) (min_support : Q)
  : list (Z * Z * nat) :=
  freq (PyIterable (get_item_pairs (stage_orders order_item min_support))).

(** [len(qualifying_orders)]. *)
Definition qualifying_order_count (order_item : Series) (min_support : Q)
  : nat :=
  length (qualifying_orders (stage_items order_item min_support)).

(** The rows of [item_pairs] after the pair filter. *)
Definition surviving_pairs (order_item : Series) (min_support : Q)
  : list pair_row :=
  frame_rows
    (filter_pairs
       (pair_statistics (get_item_pairs (stage_orders order_item min_support))
                        (qualifying_order_count order_item min_support))
       min_support).

(** The item statistics that the metrics use. *)
Definition final_item_stats (order_item : Series) (min_support : Q)
  : list item_stat :=
  item_statistics (stage_orders order_item min_support).

(** The rows joined with the statistics of both members. *)
Definition merged_pairs (order_item : Series) (min_support : Q)
  : list (pair_row * item_stat * item_stat) :=
  merge_on (λ l, (pair_key l.1).2)
    (merge_on (λ p, (pair_key p).1)
       (surviving_pairs order_item min_support)
       (final_item_stats order_item min_support))
    (final_item_stats order_item min_support).

(** The pair columns and the item columns of a rule. *)
Definition rule_pair (r : rule) : pair_row :=
  PairRow (item_A r, item_B r) (freqAB r) (supportAB r).
Definition rule_stat_A (r : rule) : item_stat :=
  ItemStat (item_A r) (freqA r) (supportA r).
Definition rule_stat_B (r : rule) : item_stat :=
  ItemStat (item_B r) (freqB r) (supportB r).

(** ** The float columns as binary64 *)

(** The pipeline once more, with every float column a binary64 number of
    IEEE 754 ([spec_float] at precision 53 and [emax] 1024) and every
    operation rounded to nearest even, as numpy computes it.  The integer
    columns, the stream operations and the frames are those above; a
    statement that depends on rounding is made on this pipeline. *)
Module Float64.

Definition prec : Z := 53.
Definition emax : Z := 1024.

(** An integer count converted to a float. *)
Definition of_int (n : nat) : spec_float :=
  binary_normalize prec emax (Z.of_nat n) 0 false.

Definition div (x y : spec_float) : spec_float := SFdiv prec emax x y.
Definition mul (x y : spec_float) : spec_float := SFmul prec emax x y.

(** [x >= y]: false when a side is NaN. *)
Definition ge (x y : spec_float) : bool := SFleb y x.

(** [count / total * 100]: the count and the total are converted, the
    quotient is rounded, then the product with [100.0] is rounded. *)
Definition percent (count total : nat) : spec_float :=
  mul (div (of_int count) (of_int total)) (of_int 100).

Record item_stat : Type := ItemStat {
  stat_item : Z;
  stat_freq : nat;
  stat_support : spec_float
}.

Definition item_statistics (order_item : Series) : list item_stat :=
  let total := order_count order_item in
  (λ kv, ItemStat kv.1 kv.2 (percent kv.2 total))
    <$> freq (PdSeries (values order_item)).

Definition qualifying_items (item_stats : list item_stat)
    (min_support : spec_float) : list Z :=
  stat_item <$> filter (λ s, ge (stat_support s) min_support = true) item_stats.

Record pair_row : Type := PairRow {
  pair_key : Z * Z;
  pair_freqAB : nat;
  pair_supportAB : spec_float
}.

Record indexed_frame : Type := IndexedFrame {
  frame_index : pd_index;
  frame_rows : list pair_row
}.

Record flat_frame : Type := FlatFrame {
  key_columns : list string;
  flat_rows : list pair_row
}.

Definition pair_statistics (item_pair_gen : list (Z * Z)) (n_orders : nat)
  : indexed_frame :=
  let counts := freq (PyIterable item_pair_gen) in
  IndexedFrame (match counts with [] => PlainIndex | _ => MultiIndex2 end)
               ((λ kv, PairRow kv.1 kv.2 (percent kv.2 n_orders)) <$> counts).

Definition filter_pairs (item_pairs : indexed_frame) (min_support : spec_float)
  : indexed_frame :=
  IndexedFrame (frame_index item_pairs)
               (filter (λ p, ge (pair_supportAB p) min_support = true)
                       (frame_rows item_pairs)).

Definition reset_index (item_pairs : indexed_frame) : flat_frame :=
  FlatFrame (match frame_index item_pairs with
             | MultiIndex2 => ["level_0"; "level_1"]
             | PlainIndex => ["index"]
             end)%string
            (frame_rows item_pairs).

Definition rename_columns (mapper : list (string * string))
    (item_pairs : flat_frame) : flat_frame :=
  FlatFrame ((λ c, default c ((list_to_map mapper : gmap string string) !! c))
               <$> key_columns item_pairs)
            (flat_rows item_pairs).

Definition key_column (label : string) (item_pairs : flat_frame)
  : result (pair_row → Z) :=
  match list_find (λ c, c = label) (key_columns item_pairs) with
  | Some (0, _) => Ok (λ p, (pair_key p).1)
  | Some (1, _) => Ok (λ p, (pair_key p).2)
  | _ => Raise (KeyError label)
  end.

Definition merge_on {L : Type} (item_of : L → Z) (left : list L)
    (item_stats : list item_stat) : list (L * item_stat) :=
  l ← left;
  s ← filter (λ s, stat_item s = item_of l) item_stats;
  [(l, s)].

Definition merge_item_stats (item_pairs : flat_frame)
    (item_stats : list item_stat)
  : result (list (pair_row * item_stat * item_stat)) :=
  result_bind (key_column "item_A" item_pairs) (λ item_A,
  result_bind (key_column "item_B" item_pairs) (λ item_B,
  Ok (merge_on (λ l, item_B l.1)
               (merge_on item_A (flat_rows item_pairs) item_stats)
               item_stats))).

Record rule : Type := Rule {
  item_A : Z;
  item_B : Z;
  freqAB : nat;
  supportAB : spec_float;
  freqA : nat;
  supportA : spec_float;
  freqB : nat;
  supportB : spec_float;
  confidenceAtoB : spec_float;
  confidenceBtoA : spec_float;
  lift : spec_float
}.

Definition add_metrics (m : pair_row * item_stat * item_stat) : rule :=
  let '(p, a, b) := m in
  let supportAB := pair_supportAB p in
  let supportA := stat_support a in
  let supportB := stat_support b in
  Rule (pair_key p).1 (pair_key p).2
       (pair_freqAB p) supportAB
       (stat_freq a) supportA
       (stat_freq b) supportB
       (div supportAB supportA)
       (div supportAB supportB)
       (div supportAB (mul supportA supportB)).

Definition lift_desc (r1 r2 : rule) : Prop := ge (lift r1) (lift r2) = true.

#[global] Instance lift_desc_dec : RelDecision lift_desc.
Proof. intros r1 r2. unfold lift_desc. apply _. Defined.

Definition sort_by_lift_desc (rules : list rule) : list rule :=
  merge_sort lift_desc rules.

Definition stage_items (order_item : Series) (min_support : spec_float)
  : Series :=
  filter_items order_item
    (qualifying_items (item_statistics order_item) min_support).

Definition stage_orders (order_item : Series) (min_support : spec_float)
  : Series :=
  let order_item := stage_items order_item min_support in
  filter_orders order_item (qualifying_orders order_item).

(** [association_rules(order_item, min_support)] on binary64 columns. *)
Definition association_rules (order_item : Series) (min_support : spec_float)
  : result (list rule) :=
  (* Calculate item frequency and support *)
  let item_stats := item_statistics order_item in
  (* Filter from order_item items below min support *)
  let qualifying_items := qualifying_items item_stats min_support in
  let order_item := filter_items order_item qualifying_items in
  (* Filter from order_item orders with less than 2 items *)
  let qualifying_orders := qualifying_orders order_item in
  let order_item := filter_orders order_item qualifying_orders in
  (* Recalculate item frequency and support *)
  let item_stats := item_statistics order_item in
  (* Get item pairs generator *)
  let item_pair_gen := get_item_pairs order_item in
  (* Calculate item pair frequency and support *)
  let item_pairs := pair_statistics item_pair_gen (length qualifying_orders) in
  (* Filter from item_pairs those below min support *)
  let item_pairs := filter_pairs item_pairs min_support in
  (* Create table of association rules and compute relevant metrics *)
  let item_pairs :=
    rename_columns [("level_0", "item_A"); ("level_1", "item_B")]%string
                   (reset_index item_pairs) in
  result_bind (merge_item_stats item_pairs item_stats) (λ item_pairs,
  let item_pairs := add_metrics <$> item_pairs in
  (* Return association rules sorted by lift in descending order *)
  Ok (sort_by_lift_desc item_pairs)).

(** Names for the intermediate tables. *)
Definition counted_pairs (order_item : Series) (min_support : spec_float)
  : list (Z * Z * nat) :=
  freq (PyIterable (get_item_pairs (stage_orders order_item min_support))).

Definition qualifying_order_count (order_item : Series)
    (min_support : spec_float) : nat :=
  length (qualifying_orders (stage_items order_item min_support)).

Definition surviving_pairs (order_item : Series) (min_support : spec_float)
  : list pair_row :=
  frame_rows
    (filter_pairs
       (pair_statistics (get_item_pairs (stage_orders order_item min_support))
                        (qualifying_order_count order_item min_support))
       min_support).

Definition final_item_stats (order_item : Series) (min_support : spec_float)
  : list item_stat :=
  item_statistics (stage_orders order_item min_support).

Definition merged_pairs (order_item : Series) (min_support : spec_float)
  : list (pair_row * item_stat * item_stat) :=
  merge_on (λ l, (pair_key l.1).2)
    (merge_on (λ p, (pair_key p).1)
       (surviving_pairs order_item min_support)
       (final_item_stats order_item min_support))
    (final_item_stats order_item min_support).

Definition rule_pair (r : rule) : pair_row :=
  PairRow (item_A r, item_B r) (freqAB r) (supportAB r).

End Float64.

(** ** Sample streams *)

(** The sample data of the notebook, [apple], [egg], [milk] numbered
    [10], [20], [30]: order 1 holds all three, order 2 holds egg and milk. *)
Definition example_orders : Series :=
  [(1, 10); (1, 20); (1, 30); (2, 20); (2, 30)]%Z.

(** Two orders holding the same two items, added to the cart in opposite
    orders. *)
Definition swapped_orders : Series :=
  [(1, 10); (1, 20); (2, 20); (2, 10)]%Z.

(** Three orders holding the same two items, one of them in the opposite
    stream order. *)
Definition uneven_orders : Series :=
  [(1, 10); (1, 20); (2, 10); (2, 20); (3, 20); (3, 10)]%Z.

(** An order of two items and an order that has one item only. *)
Definition mixed_orders : Series :=
  [(1, 10); (1, 20); (2, 10)]%Z.

(** An order that lists the same item twice. *)
Definition repeated_item_orders : Series :=
  [(1, 10); (1, 10); (1, 20)]%Z.

(** Forty orders of the same two items: 23 list item 10 first, 17 list
    item 20 first. *)
Definition threshold_orders : Series :=
  (o ← seq 1 23; [(Z.of_nat o, 10%Z); (Z.of_nat o, 20%Z)])
  ++ (o ← seq 24 17; [(Z.of_nat o, 20%Z); (Z.of_nat o, 10%Z)]).

(** A stream in which no order has two items. *)
Definition single_item_orders : Series :=
  [(1, 10); (2, 20)]%Z.

(** * Properties *)

(** ** Counting *)

Section counting_facts.
Context {K : Type} `{Countable K}.
Implicit Types (k : K) (l : list K) (c : list (K * nat)).

Lemma occurrences_nil k : occurrences k [] = 0.
Proof. reflexivity. Qed.

Lemma occurrences_cons k x l :
  occurrences k (x :: l) =
  (if decide (x = k) then 1 else 0) + occurrences k l.
Proof.
  unfold occurrences. rewrite filter_cons.
  destruct (decide (x = k)); reflexivity.
Qed.

Lemma occurrences_app k l1 l2 :
  occurrences k (l1 ++ l2) = occurrences k l1 + occurrences k l2.
Proof. unfold occurrences. by rewrite filter_app, length_app. Qed.

Lemma occurrences_pos k l : k ∈ l ↔ 0 < occurrences k l.
Proof.
  induction l as [|x l IH]; [rewrite occurrences_nil; split; [inversion 1|lia]|].
  rewrite occurrences_cons, elem_of_cons.
  destruct (decide (x = k)) as [->|Hne]; [split; [lia|auto]|].
  rewrite <- IH. simpl. split; [intros [?|?]; congruence|auto].
Qed.

Lemma occurrences_Permutation k l1 l2 :
  l1 ≡ₚ l2 → occurrences k l1 = occurrences k l2.
Proof. intros Hp. unfold occurrences. by rewrite Hp. Qed.

Lemma Counter_snoc l x : Counter (l ++ [x]) = counter_incr x (Counter l).
Proof. unfold Counter. by rewrite foldl_app. Qed.

Lemma counter_incr_keys k c x :
  x ∈ (counter_incr k c).*1 ↔ x = k ∨ x ∈ c.*1.
Proof.
  induction c as [|[k' n] c IH]; simpl.
  - rewrite list_elem_of_singleton, elem_of_nil. tauto.
  - destruct (decide (k = k')) as [->|Hne]; simpl.
    + rewrite !elem_of_cons. tauto.
    + rewrite !elem_of_cons, IH. tauto.
Qed.

Lemma counter_incr_NoDup k c : NoDup c.*1 → NoDup (counter_incr k c).*1.
Proof.
  induction c as [|[k' n] c IH]; simpl; intros Hnd.
  - apply NoDup_singleton.
  - apply NoDup_cons in Hnd as [Hnotin Hnd].
    destruct (decide (k = k')) as [->|Hne]; simpl.
    + by apply NoDup_cons.
    + apply NoDup_cons. split; [|auto].
      rewrite counter_incr_keys. intros [?|?]; [congruence|done].
Qed.

Lemma get_count_incr k c x :
  get_count x (counter_incr k c) =
  if decide (x = k) then S (get_count k c) else get_count x c.
Proof.
  induction c as [|[k' n] c IH]; simpl.
  - destruct (decide (x = k)); reflexivity.
  - destruct (decide (k = k')) as [->|Hne]; simpl.
    + destruct (decide (x = k')); reflexivity.
    + destruct (decide (x = k')) as [->|Hne'].
      * rewrite decide_False by congruence. reflexivity.
      * rewrite IH. destruct (decide (x = k)); [subst|]; reflexivity.
Qed.

Lemma get_count_elem k n c :
  NoDup c.*1 → (k, n) ∈ c ↔ k ∈ c.*1 ∧ get_count k c = n.
Proof.
  induction c as [|[k' m] c IH]; simpl; intros Hnd.
  - rewrite !elem_of_nil. tauto.
  - apply NoDup_cons in Hnd as [Hnotin Hnd].
    rewrite !elem_of_cons, (IH Hnd).
    destruct (decide (k = k')) as [->|Hne].
    + split.
      * intros [Heq|[Hin _]]; [by inversion Heq; auto|done].
      * intros [_ ->]. by left.
    + split.
      * intros [Heq|[Hin Hc]]; [inversion Heq; congruence|auto].
      * intros [[?|Hin] Hc]; [congruence|auto].
Qed.

Lemma Counter_keys l x : x ∈ (Counter l).*1 ↔ x ∈ l.
Proof.
  induction l as [|y l IH] using rev_ind; [reflexivity|].
  rewrite Counter_snoc, counter_incr_keys, IH, elem_of_app,
    list_elem_of_singleton. tauto.
Qed.

Lemma Counter_NoDup l : NoDup (Counter l).*1.
Proof.
  induction l as [|y l IH] using rev_ind; [apply NoDup_nil_2|].
  rewrite Counter_snoc. by apply counter_incr_NoDup.
Qed.

Lemma Counter_get_count l k : get_count k (Counter l) = occurrences k l.
Proof.
  induction l as [|y l IH] using rev_ind; [reflexivity|].
  rewrite Counter_snoc, get_count_incr, occurrences_app, occurrences_cons,
    occurrences_nil.
  destruct (decide (k = y)) as [->|Hne].
  - rewrite decide_True by done. rewrite IH. lia.
  - rewrite decide_False by congruence. rewrite IH. lia.
Qed.

(** The [Counter] branch builds the count table of its input. *)
Lemma Counter_count_table l : count_table l (Counter l).
Proof.
  split; [apply Counter_NoDup|]. intros k n.
  rewrite get_count_elem by apply Counter_NoDup.
  rewrite Counter_keys, Counter_get_count.
  split; intros [? ?]; by subst.
Qed.

(** The [value_counts] branch builds the count table of its input. *)
Lemma value_counts_count_table l : count_table l (value_counts l).
Proof.
  unfold value_counts. split.
  - rewrite merge_sort_Permutation, <- list_fmap_compose.
    eapply (eq_ind_r NoDup (NoDup_remove_dups l)), list_fmap_id.
  - intros k n. rewrite merge_sort_Permutation, list_elem_of_fmap.
    setoid_rewrite elem_of_remove_dups. split.
    + intros (x & [= -> ->] & Hin). done.
    + intros [Hin ->]. eauto.
Qed.

Lemma freq_count_table (it : iterable_arg K) l :
  (it = PdSeries l ∨ it = PyIterable l) → count_table l (freq it).
Proof.
  intros [->| ->]; simpl;
    [apply value_counts_count_table|apply Counter_count_table].
Qed.

Lemma count_table_lookup l c k :
  count_table l c →
  (list_to_map c : gmap K nat) !! k =
  if decide (k ∈ l) then Some (occurrences k l) else None.
Proof.
  intros [Hnd Hc]. destruct (decide (k ∈ l)) as [Hin|Hnotin].
  - apply elem_of_list_to_map; [done|]. by apply Hc.
  - apply not_elem_of_list_to_map. intros Hk.
    apply list_elem_of_fmap in Hk as ([k' n] & -> & Hkn).
    apply Hc in Hkn as [? _]. done.
Qed.

Lemma count_table_keys l c k : count_table l c → k ∈ c.*1 ↔ k ∈ l.
Proof.
  intros [_ Hc]. rewrite list_elem_of_fmap. split.
  - intros ([k' n] & -> & Hkn). by apply Hc in Hkn as [? _].
  - intros Hin. exists (k, occurrences k l). split; [done|]. by apply Hc.
Qed.

Lemma count_table_pos l c k n : count_table l c → (k, n) ∈ c → 0 < n.
Proof.
  intros [_ Hc] Hkn. apply Hc in Hkn as [Hin ->]. by apply occurrences_pos.
Qed.

Lemma count_keys_snoc l x :
  count_keys (l ++ [x])
  = <[x := S (default 0 (count_keys l !! x))]> (count_keys l).
Proof. unfold count_keys. by rewrite foldl_app. Qed.

(** The generic counting function maps every key of the sequence to the
    number of its occurrences, and nothing else. *)
Lemma count_keys_lookup l k :
  count_keys l !! k = if decide (k ∈ l) then Some (occurrences k l) else None.
Proof.
  induction l as [|x l IH] using rev_ind.
  - rewrite decide_False by apply not_elem_of_nil. apply lookup_empty.
  - rewrite count_keys_snoc, lookup_insert, occurrences_app, occurrences_cons,
      occurrences_nil.
    destruct (decide (x = k)) as [->|Hne].
    + rewrite decide_True by (rewrite elem_of_app, list_elem_of_singleton; auto).
      rewrite IH. f_equal. destruct (decide (k ∈ l)) as [Hin|Hnin]; simpl; [lia|].
      destruct (occurrences k l) eqn:Hocc; [reflexivity|].
      exfalso. apply Hnin, occurrences_pos. lia.
    + rewrite IH, Nat.add_0_r.
      destruct (decide (k ∈ l)) as [Hin|Hnin].
      * by rewrite decide_True by (rewrite elem_of_app; auto).
      * rewrite decide_False; [done|].
        rewrite elem_of_app, list_elem_of_singleton. intros [?|?]; congruence.
Qed.

(** C8: on every key sequence the [value_counts] branch and the
    [Counter] branch of [freq] give the same mapping from key to count,
    which is the mapping of the generic counting function [count_keys];
    that mapping sends each key occurring in the sequence to the number
    of its occurrences and has no other key; each branch lists every
    distinct key once; and the mapping does not depend on the order of
    the sequence. *)
Theorem freq_branches_agree l :
  (list_to_map (freq (PdSeries l)) : gmap K nat)
    = list_to_map (freq (PyIterable l))
  ∧ (∀ it : iterable_arg K,
       (list_to_map (freq it) : gmap K nat) = count_keys (iterable_elems it))
  ∧ (∀ k, (list_to_map (freq (PyIterable l)) : gmap K nat) !! k
          = if decide (k ∈ l) then Some (occurrences k l) else None)
  ∧ NoDup (freq (PdSeries l)).*1
  ∧ NoDup (freq (PyIterable l)).*1
  ∧ (∀ l', l ≡ₚ l' →
       (list_to_map (freq (PyIterable l)) : gmap K nat)
         = list_to_map (freq (PyIterable l'))
       ∧ (list_to_map (freq (PdSeries l)) : gmap K nat)
         = list_to_map (freq (PdSeries l'))).
Proof.
  pose proof (value_counts_count_table l) as Hv.
  pose proof (Counter_count_table l) as Hc.
  split; [|split; [|split; [|split; [|split]]]].
  - apply map_eq. intros k. simpl.
    by rewrite (count_table_lookup l _ k Hv), (count_table_lookup l _ k Hc).
  - intros it. apply map_eq. intros k. rewrite count_keys_lookup.
    destruct it as [values|elems]; simpl.
    + apply count_table_lookup, value_counts_count_table.
    + apply count_table_lookup, Counter_count_table.
  - intros k. by apply count_table_lookup.
  - apply Hv.
  - apply Hc.
  - intros l' Hp. split; apply map_eq; intros k; simpl.
    + rewrite (count_table_lookup l _ k Hc),
        (count_table_lookup l' _ k (Counter_count_table l')).
      rewrite (occurrences_Permutation k l l' Hp).
      destruct (decide (k ∈ l)) as [Hin|Hnin], (decide (k ∈ l')) as [Hin'|Hnin'];
        try done; [rewrite Hp in Hin|rewrite <- Hp in Hin']; done.
    + rewrite (count_table_lookup l _ k Hv),
        (count_table_lookup l' _ k (value_counts_count_table l')).
      rewrite (occurrences_Permutation k l l' Hp).
      destruct (decide (k ∈ l)) as [Hin|Hnin], (decide (k ∈ l')) as [Hin'|Hnin'];
        try done; [rewrite Hp in Hin|rewrite <- Hp in Hin']; done.
Qed.
End counting_facts.

(** ** Pair generator *)

Section groupby_facts.
Context {A K : Type} `{EqDecision K} (key : A → K).
Implicit Types (l cur : list A) (G : list (K * list A)).

(** Every row of a group carries the key of the group. *)
Definition keyed G : Prop :=
  Forall (λ kg, Forall (λ x, key x = kg.1) kg.2) G.

Lemma groupby_run_head k cur l :
  ∃ g gs, groupby_run key k cur l = (k, g) :: gs.
Proof.
  revert cur. induction l as [|x l IH]; intros cur; simpl; [eauto|].
  destruct (decide (key x = k)); eauto.
Qed.

Lemma groupby_head x l : ∃ g gs, groupby key (x :: l) = (key x, g) :: gs.
Proof. apply groupby_run_head. Qed.

(** The run in progress is glued in front of the groups of the rest. *)
Lemma groupby_run_eq k cur l :
  groupby_run key k cur l =
  match groupby key l with
  | [] => [(k, cur)]
  | (k', g) :: gs =>
      if decide (k' = k) then (k, cur ++ g) :: gs
      else (k, cur) :: (k', g) :: gs
  end.
Proof.
  revert k cur. induction l as [|x l IH]; intros k cur; [reflexivity|].
  cbn [groupby_run groupby].
  destruct (decide (key x = k)) as [<-|Hne].
  - rewrite !IH. destruct (groupby key l) as [|[k' g] gs].
    + by rewrite decide_True.
    + destruct (decide (k' = key x)); rewrite decide_True by done;
        by rewrite <- ?(assoc_L (++)).
  - destruct (groupby_run_head (key x) [x] l) as (g & gs & ->).
    by rewrite decide_False.
Qed.

Lemma groupby_cons x l :
  groupby key (x :: l) =
  match groupby key l with
  | [] => [(key x, [x])]
  | (k', g) :: gs =>
      if decide (k' = key x) then (key x, x :: g) :: gs
      else (key x, [x]) :: (k', g) :: gs
  end.
Proof. apply (groupby_run_eq (key x) [x] l). Qed.

(** The groups, laid end to end, are the input. *)
Lemma groupby_concat l : groupby key l ≫= snd = l.
Proof.
  induction l as [|x l IH]; [reflexivity|].
  rewrite groupby_cons. destruct (groupby key l) as [|[k' g] gs].
  - simpl in IH. by subst.
  - destruct (decide (k' = key x)); rewrite <- IH; reflexivity.
Qed.

Lemma groupby_keyed l : keyed (groupby key l).
Proof.
  unfold keyed. induction l as [|x l IH]; [constructor|].
  rewrite groupby_cons. destruct (groupby key l) as [|[k' g] gs].
  - repeat constructor.
  - apply Forall_cons in IH as [Hg Hgs].
    destruct (decide (k' = key x)) as [->|Hne].
    + constructor; [|done]. by constructor.
    + constructor; [by repeat constructor|]. by constructor.
Qed.

Lemma groupby_nonempty l : Forall (λ kg, kg.2 ≠ []) (groupby key l).
Proof.
  induction l as [|x l IH]; [constructor|].
  rewrite groupby_cons. destruct (groupby key l) as [|[k' g] gs].
  - by repeat constructor.
  - apply Forall_cons in IH as [Hg Hgs].
    destruct (decide (k' = key x)); repeat (constructor; try done).
Qed.

Lemma groupby_keys_elem l k : k ∈ (groupby key l).*1 ↔ k ∈ key <$> l.
Proof.
  induction l as [|x l IH]; [reflexivity|].
  rewrite groupby_cons, fmap_cons, elem_of_cons, <- IH.
  destruct (groupby_head x l) as (g0 & gs0 & Hhd).
  destruct (groupby key l) as [|[k' g] gs]; simpl.
  - rewrite list_elem_of_singleton, elem_of_nil. tauto.
  - destruct (decide (k' = key x)) as [->|Hne]; simpl;
      rewrite !elem_of_cons; tauto.
Qed.

(** Filtering the groups by key and filtering the rows by key agree. *)
Lemma keyed_filter G k :
  keyed G →
  filter (λ kg, kg.1 = k) G ≫= snd = filter (λ x, key x = k) (G ≫= snd).
Proof.
  induction 1 as [|[k' g] G Hg HG IH]; [reflexivity|].
  simpl in Hg. rewrite filter_cons. cbn [mbind list_bind].
  rewrite filter_app, <- IH. simpl.
  destruct (decide (k' = k)) as [->|Hne].
  - cbn [mbind list_bind]. f_equal. simpl. symmetry.
    induction Hg as [|x g Hx Hg IHg]; [done|].
    by rewrite filter_cons, decide_True, IHg.
  - replace (filter (λ x, key x = k) g) with (@nil A); [done|].
    induction Hg as [|x g Hx Hg IHg]; [done|].
    rewrite filter_cons. simpl in Hx.
    destruct (decide (key x = k)); [congruence|done].
Qed.

Lemma NoDup_keys_filter G k :
  NoDup G.*1 →
  filter (λ kg, kg.1 = k) G = [] ∨ ∃ g, filter (λ kg, kg.1 = k) G = [(k, g)].
Proof.
  induction G as [|[k' g] G IH]; [by left|].
  rewrite fmap_cons, NoDup_cons. intros [Hnotin Hnd].
  rewrite filter_cons. simpl. destruct (decide (k' = k)) as [->|Hne]; [|auto].
  right. exists g. f_equal.
  clear IH Hnd. induction G as [|[k'' g''] G IH]; [done|].
  rewrite fmap_cons, not_elem_of_cons in Hnotin. destruct Hnotin as [Hne Hnotin].
  rewrite filter_cons. simpl in *.
  destruct (decide (k'' = k)); [congruence|auto].
Qed.

(** With distinct keys, a traversal of the groups is a traversal of the
    keys, each key standing for its one group. *)
Lemma NoDup_keys_bind {B} (f : K * list A → list B) G :
  NoDup G.*1 →
  G ≫= f = (k ← G.*1; filter (λ kg, kg.1 = k) G ≫= f).
Proof.
  intros Hnd.
  assert (Hgen : ∀ G', G' ⊆ G → NoDup G'.*1 →
            G' ≫= f = (k ← G'.*1; filter (λ kg, kg.1 = k) G ≫= f)).
  { induction G' as [|[k g] G' IH]; [done|].
    intros Hsub. rewrite fmap_cons, NoDup_cons. intros [Hnotin Hnd'].
    cbn [mbind list_bind fmap list_fmap]. simpl.
    rewrite <- IH; [|set_solver|done]. f_equal.
    destruct (NoDup_keys_filter G k Hnd) as [Hnil|[g' Heq]].
    - assert ((k, g) ∈ filter (λ kg, kg.1 = k) G) as Hin.
      { apply list_elem_of_filter. split; [done|]. apply Hsub. left. }
      rewrite Hnil in Hin. by apply elem_of_nil in Hin.
    - assert ((k, g) ∈ filter (λ kg, kg.1 = k) G) as Hin.
      { apply list_elem_of_filter. split; [done|]. apply Hsub. left. }
      rewrite Heq in Hin. apply list_elem_of_singleton in Hin.
      rewrite Heq, <- Hin. cbn [mbind list_bind]. by rewrite (right_id_L [] (++)). }
  by apply Hgen.
Qed.
End groupby_facts.

Section combinations_facts.
Context {A : Type}.
Implicit Types (pool : list A).

Lemma combinations2_length_double pool :
  2 * length (combinations2 pool) = length pool * (length pool - 1).
Proof.
  induction pool as [|x rest IH]; [reflexivity|].
  cbn [combinations2 length]. rewrite length_app, length_fmap.
  destruct rest as [|y rest]; [reflexivity|].
  cbn [length] in *. nia.
Qed.

Lemma combinations2_length pool :
  length (combinations2 pool) = length pool * (length pool - 1) / 2.
Proof.
  rewrite <- combinations2_length_double, Nat.mul_comm.
  by rewrite Nat.div_mul.
Qed.

Lemma combinations2_short pool : length pool ≤ 1 → combinations2 pool = [].
Proof.
  destruct pool as [|x [|y rest]]; [done|done|]. cbn [length]. lia.
Qed.

(** The pairs are the pairs of positions [i < j] of the pool. *)
Lemma combinations2_elem pool a b :
  (a, b) ∈ combinations2 pool ↔
  ∃ l1 l2 l3, pool = l1 ++ a :: l2 ++ b :: l3.
Proof.
  induction pool as [|x rest IH]; simpl.
  - rewrite elem_of_nil. split; [done|].
    intros (l1 & l2 & l3 & Heq). by destruct l1.
  - rewrite elem_of_app, list_elem_of_fmap, IH. split.
    + intros [(y & [= -> ->] & Hin)|(l1 & l2 & l3 & ->)].
      * apply list_elem_of_split in Hin as (l2 & l3 & ->).
        by exists [], l2, l3.
      * by exists (x :: l1), l2, l3.
    + intros (l1 & l2 & l3 & Heq). destruct l1 as [|z l1].
      * injection Heq as -> ->. left. exists b. split; [done|].
        rewrite elem_of_app, elem_of_cons. auto.
      * injection Heq as -> ->. right. by exists l1, l2, l3.
Qed.

Lemma combinations2_members pool a b :
  (a, b) ∈ combinations2 pool → a ∈ pool ∧ b ∈ pool.
Proof.
  rewrite combinations2_elem. intros (l1 & l2 & l3 & ->).
  rewrite !elem_of_app, !elem_of_cons, !elem_of_app, !elem_of_cons. tauto.
Qed.

Lemma combinations2_distinct pool a b :
  NoDup pool → (a, b) ∈ combinations2 pool → a ≠ b.
Proof.
  rewrite combinations2_elem. intros Hnd (l1 & l2 & l3 & ->) <-.
  apply NoDup_app in Hnd as (_ & _ & Hnd).
  apply NoDup_cons in Hnd as [Hnotin _]. apply Hnotin.
  rewrite elem_of_app, elem_of_cons. auto.
Qed.

Lemma combinations2_cover pool a b :
  a ∈ pool → b ∈ pool → a ≠ b →
  (a, b) ∈ combinations2 pool ∨ (b, a) ∈ combinations2 pool.
Proof.
  intros Ha Hb Hne. rewrite !combinations2_elem.
  apply list_elem_of_split in Ha as (l1 & l2 & ->).
  apply elem_of_app in Hb as [Hb|Hb].
  - apply list_elem_of_split in Hb as (l3 & l4 & ->).
    right. exists l3, l4, l2. by rewrite <- (assoc_L (++)).
  - apply elem_of_cons in Hb as [->|Hb]; [done|].
    apply list_elem_of_split in Hb as (l3 & l4 & ->).
    left. by exists l1, l3, l4.
Qed.

(** In a pool without repetition no pair comes out in both orders. *)
Lemma combinations2_one_order pool a b :
  NoDup pool → (a, b) ∈ combinations2 pool → (b, a) ∉ combinations2 pool.
Proof.
  rewrite !combinations2_elem.
  intros Hnd (l1 & l2 & l3 & ->) (m1 & m2 & m3 & Heq).
  assert (Hlen : ∀ (u v w : list A) (x y : A),
            NoDup (u ++ x :: v ++ y :: w) →
            ∀ i j, (u ++ x :: v ++ y :: w) !! i = Some x →
                   (u ++ x :: v ++ y :: w) !! j = Some y → i < j).
  { intros u v w x y Hn i j Hi Hj.
    assert (Hi' : (u ++ x :: v ++ y :: w) !! length u = Some x)
      by apply list_lookup_middle, eq_refl.
    assert (Hj' : (u ++ x :: v ++ y :: w) !! (length u + S (length v)) = Some y).
    { rewrite lookup_app_r by lia.
      replace (length u + S (length v) - length u) with (S (length v)) by lia.
      simpl. by apply list_lookup_middle. }
    rewrite (NoDup_lookup _ _ _ _ Hn Hi Hi').
    rewrite (NoDup_lookup _ _ _ _ Hn Hj Hj'). lia. }
  pose proof Hnd as Hnd'. rewrite Heq in Hnd'.
  assert (Ha1 : (l1 ++ a :: l2 ++ b :: l3) !! length l1 = Some a)
    by apply list_lookup_middle, eq_refl.
  assert (Hb1 : (l1 ++ a :: l2 ++ b :: l3) !! (length l1 + S (length l2)) = Some b).
  { rewrite lookup_app_r by lia.
    replace (length l1 + S (length l2) - length l1) with (S (length l2)) by lia.
    simpl. by apply list_lookup_middle. }
  pose proof (Hlen m1 m2 m3 b a Hnd' (length l1 + S (length l2)) (length l1)) as Hlt.
  rewrite <- Heq in Hlt. specialize (Hlt Hb1 Ha1). lia.
Qed.
End combinations_facts.

Lemma grouped_cons row next rest :
  grouped (row :: next :: rest) = true ↔
  (row.1 = next.1 ∨ row.1 ∉ index (next :: rest))
  ∧ grouped (next :: rest) = true.
Proof.
  cbn [grouped]. rewrite andb_true_iff, bool_decide_eq_true. reflexivity.
Qed.

(** [grouped] decides the contiguity of the rows of every order. *)
Lemma grouped_contiguous (order_item : Series) :
  grouped order_item = true ↔ contiguous order_item.
Proof.
  induction order_item as [|row rest IH].
  { split; [|done]. intros _ l1 x l2 y l3 Heq. by destruct l1. }
  destruct rest as [|next rest].
  { split; [|done]. intros _ l1 x l2 y l3 Heq.
    destruct l1 as [|? [|? ?]]; [destruct l2| |]; done. }
  rewrite grouped_cons, IH. split.
  - intros [Hrow Hrest] l1 x l2 y l3 Heq Hxy. destruct l1 as [|r l1].
    + injection Heq as <- Heq.
      destruct Hrow as [Hnext|Hnotin].
      * destruct l2 as [|z l2]; [done|]. injection Heq as -> Heq.
        constructor; [done|]. rewrite Hnext.
        apply (Hrest [] z l2 y l3); [by rewrite Heq|congruence].
      * exfalso. apply Hnotin. rewrite Heq. unfold index.
        rewrite fmap_app, elem_of_app, fmap_cons, elem_of_cons. auto.
    + injection Heq as <- Heq. by apply (Hrest l1 x l2 y l3).
  - intros Hc. split.
    + destruct (decide (row.1 ∈ index (next :: rest))) as [Hin|]; [|auto].
      left. unfold index in Hin.
      apply list_elem_of_fmap in Hin as (y & Hy & Hin).
      apply list_elem_of_split in Hin as (l2 & l3 & Heq).
      pose proof (Hc [] row l2 y l3) as Hall. simpl in Hall.
      rewrite Heq in Hall. specialize (Hall eq_refl Hy).
      destruct l2 as [|z l2]; [injection Heq as -> _; done|].
      injection Heq as -> _. by apply Forall_cons in Hall as [-> _].
    + intros l1 x l2 y l3 Heq. apply (Hc (row :: l1) x l2 y l3).
      by rewrite Heq.
Qed.

Section filter_split.
Context {A : Type} (P : A → Prop) `{∀ x, Decision (P x)}.
Implicit Types (l a b : list A).

Lemma filter_cons_inv l x b :
filter P l = x :: b →
∃ a' b', l = a' ++ x :: b' ∧ filter P a' = [] ∧ filter P b' = b.
Proof.
induction l as [|z l IH]; [done|]. rewrite filter_cons.
destruct (decide (P z)) as [Hz|Hz].
- intros [= -> <-]. by exists [], l.
- intros (a' & b' & -> & Ha & Hb)%IH. exists (z :: a'), b'.
  split; [done|]. split; [|done]. by rewrite filter_cons, decide_False.
Qed.

Lemma filter_app_inv l a b :
filter P l = a ++ b →
∃ a' b', l = a' ++ b' ∧ filter P a' = a ∧ filter P b' = b.
Proof.
revert l. induction a as [|x a IH]; intros l Heq; [by exists [], l|].
assert (Hx : P x).
{ assert (Hin : x ∈ filter P l) by (rewrite Heq; left).
  by apply list_elem_of_filter in Hin as [? _]. }
apply filter_cons_inv in Heq as (u & v & -> & Hu & Hv).
apply IH in Hv as (a' & b' & -> & Ha & Hb).
exists (u ++ x :: a'), b'. split; [by rewrite <- (assoc_L (++))|].
split; [|done]. by rewrite filter_app, Hu, filter_cons, decide_True, Ha.
Qed.
End filter_split.

(** Dropping rows keeps the rows of every order contiguous. *)
Lemma contiguous_filter (P : Z * Z → Prop) `{∀ row, Decision (P row)}
    (order_item : Series) :
  contiguous order_item → contiguous (filter P order_item).
Proof.
  intros Hc l1 x l2 y l3 Heq Hxy.
  apply filter_app_inv in Heq as (a' & b' & -> & _ & Heq).
  apply filter_cons_inv in Heq as (u & v & -> & _ & Heq).
  apply filter_app_inv in Heq as (c & d & -> & <- & Heq).
  apply filter_cons_inv in Heq as (w & e & -> & _ & _).
  pose proof (Hc (a' ++ u) x (c ++ w) y e) as Hall.
  rewrite <- !(assoc_L (++)) in Hall. specialize (Hall eq_refl Hxy).
  apply Forall_app in Hall as [Hall _].
  apply Forall_forall. intros z Hz. apply list_elem_of_filter in Hz as [_ Hz].
  by eapply Forall_forall in Hall.
Qed.

(** A grouped input reaches the pair generator grouped. *)
Lemma stage_orders_grouped (order_item : Series) (min_support : Q) :
  grouped order_item = true →
  grouped (stage_orders order_item min_support) = true.
Proof.
  rewrite !grouped_contiguous. intros Hc.
  unfold stage_orders, stage_items, filter_orders, filter_items.
  by do 2 apply contiguous_filter.
Qed.

(** On a grouped stream no order id labels two groups. *)
Lemma grouped_NoDup_keys (order_item : Series) :
  grouped order_item = true → NoDup (groupby fst order_item).*1.
Proof.
  induction order_item as [|row rest IH]; [intros _; apply NoDup_nil_2|].
  destruct rest as [|next rest]; [intros _; apply NoDup_singleton|].
  rewrite grouped_cons. intros [Hrow Hrest]. specialize (IH Hrest).
  rewrite (groupby_cons fst row).
  destruct (groupby_head fst next rest) as (g & gs & Heq).
  rewrite Heq in IH |- *. destruct (decide (next.1 = row.1)) as [Heqk|Hne].
  - simpl in *. by rewrite <- Heqk.
  - destruct Hrow as [?|Hnotin]; [congruence|].
    cbn [fmap list_fmap fst]. apply NoDup_cons. split; [|done].
    change (row.1 ∉ ((next.1, g) :: gs).*1). rewrite <- Heq.
    by rewrite groupby_keys_elem.
Qed.

(** On a grouped stream the pairs of an order are the 2-combinations of
    all its items. *)
Lemma grouped_pairs_of_order (order_item : Series) (o : Z) :
  grouped order_item = true →
  pairs_of_order order_item o = combinations2 (order_items order_item o).
Proof.
  intros Hg. unfold pairs_of_order, order_items.
  rewrite <- (groupby_concat fst order_item) at 2.
  rewrite <- (keyed_filter fst _ o (groupby_keyed fst order_item)).
  destruct (NoDup_keys_filter (groupby fst order_item) o
              (grouped_NoDup_keys _ Hg)) as [->|[g ->]]; [done|].
  cbn [mbind list_bind]. by rewrite !(right_id_L [] (++)).
Qed.

Lemma get_item_pairs_by_order (order_item : Series) :
  grouped order_item = true →
  get_item_pairs order_item =
  (o ← (groupby fst order_item).*1; pairs_of_order order_item o).
Proof.
  intros Hg. unfold get_item_pairs, pairs_of_order.
  by rewrite <- NoDup_keys_bind by by apply grouped_NoDup_keys.
Qed.

(** C2: on a grouped stream, an order whose items are [n] distinct items
    yields exactly [n * (n - 1) / 2] pairs: every pair yielded is made of
    two different items of the order, and of two different items of the
    order one of the two orderings is yielded.  An order with at most one
    item yields no pair.  The generator's output is these per-order
    outputs one after the other, every order of the stream being visited
    once.  The generator is a total function: it raises nothing. *)
Theorem pairs_per_order (order_item : Series) (o : Z) (n : nat) :
  grouped order_item = true →
  NoDup (order_items order_item o) →
  length (order_items order_item o) = n →
  length (pairs_of_order order_item o) = n * (n - 1) / 2
  ∧ (∀ a b, (a, b) ∈ pairs_of_order order_item o →
       a ∈ order_items order_item o ∧ b ∈ order_items order_item o ∧ a ≠ b)
  ∧ (∀ a b, a ∈ order_items order_item o → b ∈ order_items order_item o →
       a ≠ b →
       (a, b) ∈ pairs_of_order order_item o
       ∨ (b, a) ∈ pairs_of_order order_item o)
  ∧ (n ≤ 1 → pairs_of_order order_item o = [])
  ∧ get_item_pairs order_item =
      (o' ← (groupby fst order_item).*1; pairs_of_order order_item o')
  ∧ NoDup (groupby fst order_item).*1
  ∧ (∀ o', o' ∈ (groupby fst order_item).*1 ↔ o' ∈ index order_item).
Proof.
  intros Hg Hnd Hlen. rewrite (grouped_pairs_of_order _ _ Hg).
  split; [by rewrite combinations2_length, Hlen|].
  split.
  { intros a b Hab. destruct (combinations2_members _ _ _ Hab).
    eauto using combinations2_distinct. }
  split; [apply combinations2_cover|].
  split; [intros Hn; apply combinations2_short; lia|].
  split; [by apply get_item_pairs_by_order|].
  split; [by apply grouped_NoDup_keys|].
  intros o'. apply groupby_keys_elem.
Qed.

(** Without the assumption that the items of the order are distinct, the
    count is that of the rows of the order. *)
Lemma order_pair_count_by_rows (order_item : Series) (o : Z) :
  grouped order_item = true →
  length (pairs_of_order order_item o)
  = length (order_items order_item o)
    * (length (order_items order_item o) - 1) / 2.
Proof.
  intros Hg. by rewrite (grouped_pairs_of_order _ _ Hg), combinations2_length.
Qed.

Example repeated_item_pairs :
  get_item_pairs repeated_item_orders = [(10, 10); (10, 20); (10, 20)]%Z.
Proof. reflexivity. Qed.

Lemma pairs_per_order_witness :
  grouped example_orders = true
  ∧ NoDup (order_items example_orders 1)
  ∧ length (order_items example_orders 1) = 3
  ∧ length (pairs_of_order example_orders 1) = 3 * (3 - 1) / 2.
Proof.
  assert (Hnd : NoDup (order_items example_orders 1))
    by by apply (bool_decide_unpack _).
  split; [reflexivity|]. split; [done|]. split; [reflexivity|].
  apply (pairs_per_order example_orders 1 3); [reflexivity|done|reflexivity].
Defined.

(** ** Rational arithmetic of the support columns *)

Lemma inject_nat_pos (n : nat) : 0 < n → (0 < inject_Z (Z.of_nat n))%Q.
Proof. intros Hn. unfold Qlt. simpl. lia. Qed.

Lemma percent_pos (count total : nat) :
  0 < count → 0 < total → (0 < percent count total)%Q.
Proof.
  intros Hc Ht. unfold percent, Qdiv.
  apply Qmult_lt_0_compat; [|reflexivity].
  apply Qmult_lt_0_compat; [by apply inject_nat_pos|].
  by apply Qinv_lt_0_compat, inject_nat_pos.
Qed.

Lemma Qpos_nonzero (x : Q) : (0 < x)%Q → ¬ (x == 0)%Q.
Proof. intros Hx Heq. apply Qlt_not_eq in Hx. apply Hx. by symmetry. Qed.

#[global] Instance lift_desc_total : Total lift_desc.
Proof.
  intros r1 r2. unfold lift_desc.
  destruct (Qlt_le_dec (lift r1) (lift r2)) as [Hlt|Hle]; [|by left].
  right. by apply Qlt_le_weak.
Qed.

#[global] Instance lift_desc_trans : Transitive lift_desc.
Proof. intros r1 r2 r3 H12 H23. unfold lift_desc in *. by eapply Qle_trans. Qed.

(** ** Item statistics *)

Lemma order_count_pos (order_item : Series) :
  order_item ≠ [] → 0 < order_count order_item.
Proof.
  destruct order_item as [|row rest]; [done|]. intros _.
  unfold order_count. apply Nat.neq_0_lt_0, size_non_empty_iff.
  intros Hempty. cut (row.1 ∈ (∅ : gset Z)); [set_solver|].
  rewrite <- Hempty. apply elem_of_list_to_set. left.
Qed.

Lemma item_statistics_keys (order_item : Series) :
  stat_item <$> item_statistics order_item
  = (freq (PdSeries (values order_item))).*1.
Proof. unfold item_statistics. by rewrite <- list_fmap_compose. Qed.

Lemma item_statistics_NoDup (order_item : Series) :
  NoDup (stat_item <$> item_statistics order_item).
Proof.
  rewrite item_statistics_keys. apply (value_counts_count_table (values order_item)).
Qed.

Lemma item_statistics_elem (order_item : Series) (s : item_stat) :
  s ∈ item_statistics order_item ↔
  stat_item s ∈ values order_item
  ∧ stat_freq s = occurrences (stat_item s) (values order_item)
  ∧ stat_support s = percent (stat_freq s) (order_count order_item).
Proof.
  unfold item_statistics. rewrite list_elem_of_fmap.
  destruct (value_counts_count_table (values order_item)) as [_ Hc]. split.
  - intros ([k n] & -> & Hkn). apply Hc in Hkn as [Hin ->]. done.
  - intros (Hin & Hf & Hs). exists (stat_item s, stat_freq s). split.
    + destruct s as [i f sup]; simpl in *. by rewrite Hs.
    + apply Hc. done.
Qed.

Lemma item_statistics_has (order_item : Series) (i : Z) :
  i ∈ values order_item → i ∈ stat_item <$> item_statistics order_item.
Proof.
  intros Hin. rewrite item_statistics_keys.
  by apply (count_table_keys _ _ _ (value_counts_count_table _)).
Qed.

(** A row of the item statistics has a positive count, a positive
    order count under it, and a positive support. *)
Lemma item_statistics_pos (order_item : Series) (s : item_stat) :
  s ∈ item_statistics order_item →
  0 < stat_freq s ∧ 0 < order_count order_item ∧ (0 < stat_support s)%Q.
Proof.
  rewrite item_statistics_elem. intros (Hin & Hf & Hs).
  assert (0 < stat_freq s) by (rewrite Hf; by apply occurrences_pos).
  assert (0 < order_count order_item).
  { apply order_count_pos. intros ->. by apply elem_of_nil in Hin. }
  split; [done|]. split; [done|]. rewrite Hs. by apply percent_pos.
Qed.

(** The only division by a zero order count is on an empty column. *)
Lemma percent_denominator (order_item : Series) :
  order_count order_item = 0 → item_statistics order_item = [].
Proof.
  intros Hz. destruct (item_statistics order_item) as [|s l] eqn:Heq; [done|].
  assert (Hs : s ∈ item_statistics order_item) by (rewrite Heq; left).
  apply item_statistics_pos in Hs. lia.
Qed.

(** ** Inner joins with the item statistics *)

Section merge_facts.
Context {L : Type} (item_of : L → Z).
Implicit Types (left : list L) (stats : list item_stat).

Lemma merge_on_elem left stats (l : L) (s : item_stat) :
  (l, s) ∈ merge_on item_of left stats ↔
  l ∈ left ∧ s ∈ stats ∧ stat_item s = item_of l.
Proof.
  unfold merge_on. rewrite list_elem_of_bind. split.
  - intros (l' & Hin & Hl'). apply list_elem_of_bind in Hin as (s' & Hin & Hs').
    apply list_elem_of_singleton in Hin as [= -> ->].
    apply list_elem_of_filter in Hs' as [? ?]. done.
  - intros (Hl & Hs & Heq). exists l. split; [|done].
    apply list_elem_of_bind. exists s. split; [apply list_elem_of_singleton; done|].
    by apply list_elem_of_filter.
Qed.

Lemma stats_filter_singleton stats (i : Z) :
  NoDup (stat_item <$> stats) → i ∈ stat_item <$> stats →
  ∃ s, filter (λ s, stat_item s = i) stats = [s].
Proof.
  induction stats as [|s stats IH]; [intros _ Hin; by apply elem_of_nil in Hin|].
  rewrite fmap_cons, NoDup_cons, elem_of_cons. intros [Hnotin Hnd] Hin.
  rewrite filter_cons. destruct (decide (stat_item s = i)) as [Heq|Hne].
  - exists s. f_equal. subst i. clear IH Hnd Hin.
    induction stats as [|s' stats IH]; [done|].
    rewrite fmap_cons, not_elem_of_cons in Hnotin.
    destruct Hnotin as [Hne Hnotin]. rewrite filter_cons.
    destruct (decide (stat_item s' = stat_item s)); [congruence|auto].
  - destruct Hin as [?|Hin]; [congruence|]. auto.
Qed.

(** When every left row finds its item in [stats], the join keeps every
    left row once, in order. *)
Lemma merge_on_fst left stats :
  NoDup (stat_item <$> stats) →
  (∀ l, l ∈ left → item_of l ∈ stat_item <$> stats) →
  (merge_on item_of left stats).*1 = left.
Proof.
  intros Hnd. induction left as [|l left IH]; [done|]. intros Hall.
  unfold merge_on in *. cbn [mbind list_bind]. rewrite fmap_app, IH.
  - destruct (stats_filter_singleton stats (item_of l) Hnd) as [s ->];
      [apply Hall; left|]. done.
  - intros l' Hl'. apply Hall. by right.
Qed.
End merge_facts.

(** ** Order-size filter *)

Lemma qualifying_orders_NoDup (order_item : Series) :
  NoDup (qualifying_orders order_item).
Proof.
  unfold qualifying_orders.
  apply (sublist_NoDup _ (Counter (index order_item)).*1).
  - apply (Counter_count_table (index order_item)).
  - apply fmap_sublist, sublist_filter.
Qed.

Lemma qualifying_orders_elem (order_item : Series) (o : Z) :
  o ∈ qualifying_orders order_item ↔ 2 ≤ occurrences o (index order_item).
Proof.
  unfold qualifying_orders. rewrite list_elem_of_fmap.
  destruct (Counter_count_table (index order_item)) as [_ Hc]. split.
  - intros ([k n] & -> & Hkn). apply list_elem_of_filter in Hkn as [Hn Hkn].
    apply Hc in Hkn as [_ ->]. done.
  - intros Hn. exists (o, occurrences o (index order_item)). split; [done|].
    apply list_elem_of_filter. split; [done|]. apply Hc. split; [|done].
    apply occurrences_pos. lia.
Qed.

Lemma filter_orders_index (order_item : Series) (o : Z) :
  o ∈ index (filter_orders order_item (qualifying_orders order_item))
  ↔ o ∈ qualifying_orders order_item.
Proof.
  unfold index, filter_orders. rewrite list_elem_of_fmap. split.
  - intros (row & -> & Hrow). by apply list_elem_of_filter in Hrow as [? _].
  - intros Ho. pose proof Ho as Hn. apply qualifying_orders_elem in Hn.
    assert (Hin : o ∈ index order_item) by (apply occurrences_pos; lia).
    apply list_elem_of_fmap in Hin as (row & -> & Hrow).
    exists row. split; [done|]. by apply list_elem_of_filter.
Qed.

(** ** Members of the generated pairs *)

Lemma get_item_pairs_members (order_item : Series) (a b : Z) :
  (a, b) ∈ get_item_pairs order_item →
  a ∈ values order_item ∧ b ∈ values order_item.
Proof.
  unfold get_item_pairs. rewrite list_elem_of_bind.
  intros ([k g] & Hab & Hg). apply combinations2_members in Hab.
  assert (Hsub : ∀ row, row ∈ g → row ∈ order_item).
  { intros row Hrow. rewrite <- (groupby_concat fst order_item).
    apply list_elem_of_bind. by exists (k, g). }
  unfold values. rewrite !list_elem_of_fmap in *.
  destruct Hab as [(ra & -> & Hra) (rb & -> & Hrb)].
  split; [exists ra|exists rb]; auto.
Qed.

(** ** The pair table *)

Lemma surviving_pairs_elem (order_item : Series) (min_support : Q) (p : pair_row) :
  p ∈ surviving_pairs order_item min_support ↔
  (pair_key p, pair_freqAB p) ∈ counted_pairs order_item min_support
  ∧ pair_supportAB p
    = percent (pair_freqAB p) (qualifying_order_count order_item min_support)
  ∧ (min_support <= pair_supportAB p)%Q.
Proof.
  unfold surviving_pairs, filter_pairs, pair_statistics, counted_pairs.
  cbn [frame_rows]. rewrite list_elem_of_filter, list_elem_of_fmap. split.
  - intros (Hms & [k n] & -> & Hkn). done.
  - intros (Hkn & Hs & Hms). split; [done|].
    exists (pair_key p, pair_freqAB p). split; [|done].
    destruct p as [k n s]; simpl in *. by rewrite Hs.
Qed.

Lemma surviving_pairs_NoDup (order_item : Series) (min_support : Q) :
  NoDup (pair_key <$> surviving_pairs order_item min_support).
Proof.
  unfold surviving_pairs, filter_pairs, pair_statistics. cbn [frame_rows].
  eapply sublist_NoDup; [|apply fmap_sublist, sublist_filter].
  rewrite <- list_fmap_compose.
  apply (Counter_count_table
           (get_item_pairs (stage_orders order_item min_support))).
Qed.

Lemma surviving_pairs_members (order_item : Series) (min_support : Q) (p : pair_row) :
  p ∈ surviving_pairs order_item min_support →
  (pair_key p).1 ∈ stat_item <$> final_item_stats order_item min_support
  ∧ (pair_key p).2 ∈ stat_item <$> final_item_stats order_item min_support.
Proof.
  rewrite surviving_pairs_elem. intros (Hkn & _ & _).
  apply (Counter_count_table _) in Hkn as [Hin _].
  destruct (pair_key p) as [a b]. apply get_item_pairs_members in Hin as [Ha Hb].
  split; by apply item_statistics_has.
Qed.

(** ** The shape of the result *)

Lemma merge_item_stats_multi (rows : list pair_row) (stats : list item_stat) :
  merge_item_stats
    (rename_columns [("level_0", "item_A"); ("level_1", "item_B")]%string
                    (reset_index (IndexedFrame MultiIndex2 rows)))
    stats
  = Ok (merge_on (λ l, (pair_key l.1).2)
                 (merge_on (λ p, (pair_key p).1) rows stats) stats).
Proof. reflexivity. Qed.

Lemma merge_item_stats_plain (rows : list pair_row) (stats : list item_stat) :
  merge_item_stats
    (rename_columns [("level_0", "item_A"); ("level_1", "item_B")]%string
                    (reset_index (IndexedFrame PlainIndex rows)))
    stats
  = Raise (KeyError "item_A").
Proof. reflexivity. Qed.

(** The pipeline raises [KeyError] exactly when no pair was counted, and
    otherwise returns the sorted table of the merged rows. *)
Lemma association_rules_eq (order_item : Series) (min_support : Q) :
  association_rules order_item min_support =
  match counted_pairs order_item min_support with
  | [] => Raise (KeyError "item_A")
  | _ :: _ =>
      Ok (sort_by_lift_desc
            (add_metrics <$> merged_pairs order_item min_support))
  end.
Proof.
  unfold association_rules, merged_pairs, surviving_pairs, final_item_stats,
    counted_pairs, qualifying_order_count, stage_orders, stage_items,
    pair_statistics, filter_pairs.
  cbn [frame_rows frame_index].
  destruct (freq (PyIterable (get_item_pairs _))) as [|kv counts].
  - by rewrite merge_item_stats_plain.
  - by rewrite merge_item_stats_multi.
Qed.

Lemma merged_pairs_fst (order_item : Series) (min_support : Q) :
  (merged_pairs order_item min_support).*1.*1
  = surviving_pairs order_item min_support.
Proof.
  unfold merged_pairs.
  pose proof (item_statistics_NoDup (stage_orders order_item min_support)) as Hnd.
  assert (H1 : (merge_on (λ p, (pair_key p).1)
                  (surviving_pairs order_item min_support)
                  (final_item_stats order_item min_support)).*1
               = surviving_pairs order_item min_support).
  { apply merge_on_fst; [done|]. intros p Hp.
    by apply surviving_pairs_members in Hp as [? _]. }
  rewrite merge_on_fst; [done|done|].
  intros [p a] Hpa. simpl.
  assert (Hp : p ∈ surviving_pairs order_item min_support).
  { rewrite <- H1. apply list_elem_of_fmap. by exists (p, a). }
  by apply surviving_pairs_members in Hp as [_ ?].
Qed.

Lemma merged_pairs_elem (order_item : Series) (min_support : Q) p a b :
  (p, a, b) ∈ merged_pairs order_item min_support ↔
  p ∈ surviving_pairs order_item min_support
  ∧ a ∈ final_item_stats order_item min_support
  ∧ stat_item a = (pair_key p).1
  ∧ b ∈ final_item_stats order_item min_support
  ∧ stat_item b = (pair_key p).2.
Proof.
  unfold merged_pairs. rewrite !merge_on_elem. simpl. tauto.
Qed.

Lemma rule_pair_add_metrics (m : pair_row * item_stat * item_stat) :
  rule_pair (add_metrics m) = m.1.1.
Proof. by destruct m as [[[[a b] f s] sa] sb]. Qed.

(** What a successful run returns. *)
Lemma association_rules_Ok (order_item : Series) (min_support : Q) out :
  association_rules order_item min_support = Ok out →
  counted_pairs order_item min_support ≠ []
  ∧ out = sort_by_lift_desc (add_metrics <$> merged_pairs order_item min_support).
Proof.
  rewrite association_rules_eq.
  destruct (counted_pairs order_item min_support); [done|].
  by intros [= <-].
Qed.

Lemma association_rules_row (order_item : Series) (min_support : Q) out r :
  association_rules order_item min_support = Ok out → r ∈ out →
  ∃ p a b, r = add_metrics (p, a, b)
           ∧ (p, a, b) ∈ merged_pairs order_item min_support.
Proof.
  intros [_ ->]%association_rules_Ok. unfold sort_by_lift_desc.
  rewrite merge_sort_Permutation, list_elem_of_fmap.
  intros ([[p a] b] & -> & Hin). eauto.
Qed.

Lemma association_rules_Permutation (order_item : Series) (min_support : Q) out :
  association_rules order_item min_support = Ok out →
  rule_pair <$> out ≡ₚ surviving_pairs order_item min_support.
Proof.
  intros [_ ->]%association_rules_Ok. unfold sort_by_lift_desc.
  rewrite merge_sort_Permutation, <- merged_pairs_fst, <- !list_fmap_compose.
  erewrite list_fmap_ext; [reflexivity|].
  intros i m _. apply rule_pair_add_metrics.
Qed.

(** The item columns of a returned row are rows of the item statistics of
    the filtered stream. *)
Lemma association_rules_stats (order_item : Series) (min_support : Q) out r :
  association_rules order_item min_support = Ok out → r ∈ out →
  rule_stat_A r ∈ final_item_stats order_item min_support
  ∧ rule_stat_B r ∈ final_item_stats order_item min_support.
Proof.
  intros Hrun Hr.
  destruct (association_rules_row _ _ _ _ Hrun Hr) as (p & a & b & -> & Hm).
  apply merged_pairs_elem in Hm as (_ & Ha & Hia & Hb & Hib).
  unfold rule_stat_A, rule_stat_B. simpl. rewrite <- Hia, <- Hib.
  by destruct a, b.
Qed.

Lemma association_rules_support_pos (order_item : Series) (min_support : Q) out r :
  association_rules order_item min_support = Ok out → r ∈ out →
  (0 < supportA r)%Q ∧ (0 < supportB r)%Q.
Proof.
  intros Hrun Hr.
  destruct (association_rules_stats _ _ _ _ Hrun Hr) as [Ha Hb].
  apply item_statistics_pos in Ha as (_ & _ & Ha).
  apply item_statistics_pos in Hb as (_ & _ & Hb). done.
Qed.

Lemma StronglySorted_adjacent {A} (R : relation A) (l : list A) i x y :
  StronglySorted R l → l !! i = Some x → l !! S i = Some y → R x y.
Proof.
  intros Hs. revert i. induction Hs as [|z l Hs IH Hall]; intros i Hx Hy; [done|].
  destruct i as [|i]; simpl in *.
  - injection Hx as ->. eapply Forall_forall in Hall; [done|].
    by eapply list_elem_of_lookup_2.
  - eauto.
Qed.

(** ** The claims about the pipeline *)

(** ** The pair filter on binary64 columns *)

Lemma f64_item_statistics_keys (order_item : Series) :
  Float64.stat_item <$> Float64.item_statistics order_item
  = (freq (PdSeries (values order_item))).*1.
Proof. unfold Float64.item_statistics. by rewrite <- list_fmap_compose. Qed.

Lemma f64_item_statistics_NoDup (order_item : Series) :
  NoDup (Float64.stat_item <$> Float64.item_statistics order_item).
Proof.
  rewrite f64_item_statistics_keys.
  apply (value_counts_count_table (values order_item)).
Qed.

Lemma f64_item_statistics_has (order_item : Series) (i : Z) :
  i ∈ values order_item →
  i ∈ Float64.stat_item <$> Float64.item_statistics order_item.
Proof.
  intros Hin. rewrite f64_item_statistics_keys.
  by apply (count_table_keys _ _ _ (value_counts_count_table _)).
Qed.

Section f64_merge_facts.
Context {L : Type} (item_of : L → Z).
Implicit Types (left : list L) (stats : list Float64.item_stat).

Lemma f64_stats_filter_singleton stats (i : Z) :
  NoDup (Float64.stat_item <$> stats) → i ∈ Float64.stat_item <$> stats →
  ∃ s, filter (λ s, Float64.stat_item s = i) stats = [s].
Proof.
  induction stats as [|s stats IH]; [intros _ Hin; by apply elem_of_nil in Hin|].
  rewrite fmap_cons, NoDup_cons, elem_of_cons. intros [Hnotin Hnd] Hin.
  rewrite filter_cons. destruct (decide (Float64.stat_item s = i)) as [Heq|Hne].
  - exists s. f_equal. subst i. clear IH Hnd Hin.
    induction stats as [|s' stats IH]; [done|].
    rewrite fmap_cons, not_elem_of_cons in Hnotin.
    destruct Hnotin as [Hne Hnotin]. rewrite filter_cons.
    destruct (decide (Float64.stat_item s' = Float64.stat_item s));
      [congruence|auto].
  - destruct Hin as [?|Hin]; [congruence|]. auto.
Qed.

Lemma f64_merge_on_fst left stats :
  NoDup (Float64.stat_item <$> stats) →
  (∀ l, l ∈ left → item_of l ∈ Float64.stat_item <$> stats) →
  (Float64.merge_on item_of left stats).*1 = left.
Proof.
  intros Hnd. induction left as [|l left IH]; [done|]. intros Hall.
  unfold Float64.merge_on in *. cbn [mbind list_bind]. rewrite fmap_app, IH.
  - destruct (f64_stats_filter_singleton stats (item_of l) Hnd) as [s ->];
      [apply Hall; left|]. done.
  - intros l' Hl'. apply Hall. by right.
Qed.
End f64_merge_facts.

Lemma f64_surviving_pairs_elem (order_item : Series) (min_support : spec_float)
    (p : Float64.pair_row) :
  p ∈ Float64.surviving_pairs order_item min_support ↔
  (Float64.pair_key p, Float64.pair_freqAB p)
    ∈ Float64.counted_pairs order_item min_support
  ∧ Float64.pair_supportAB p
    = Float64.percent (Float64.pair_freqAB p)
        (Float64.qualifying_order_count order_item min_support)
  ∧ Float64.ge (Float64.pair_supportAB p) min_support = true.
Proof.
  unfold Float64.surviving_pairs, Float64.filter_pairs,
    Float64.pair_statistics, Float64.counted_pairs.
  cbn [Float64.frame_rows]. rewrite list_elem_of_filter, list_elem_of_fmap.
  split.
  - intros (Hms & [k n] & -> & Hkn). done.
  - intros (Hkn & Hs & Hms). split; [done|].
    exists (Float64.pair_key p, Float64.pair_freqAB p). split; [|done].
    destruct p as [k n s]; simpl in *. by rewrite Hs.
Qed.

Lemma f64_surviving_pairs_NoDup (order_item : Series) (min_support : spec_float) :
  NoDup (Float64.pair_key <$> Float64.surviving_pairs order_item min_support).
Proof.
  unfold Float64.surviving_pairs, Float64.filter_pairs,
    Float64.pair_statistics. cbn [Float64.frame_rows].
  eapply sublist_NoDup; [|apply fmap_sublist, sublist_filter].
  rewrite <- list_fmap_compose.
  apply (Counter_count_table
           (get_item_pairs (Float64.stage_orders order_item min_support))).
Qed.

Lemma f64_surviving_pairs_members (order_item : Series)
    (min_support : spec_float) (p : Float64.pair_row) :
  p ∈ Float64.surviving_pairs order_item min_support →
  (Float64.pair_key p).1
    ∈ Float64.stat_item <$> Float64.final_item_stats order_item min_support
  ∧ (Float64.pair_key p).2
    ∈ Float64.stat_item <$> Float64.final_item_stats order_item min_support.
Proof.
  rewrite f64_surviving_pairs_elem. intros (Hkn & _ & _).
  apply (Counter_count_table _) in Hkn as [Hin _].
  destruct (Float64.pair_key p) as [a b].
  apply get_item_pairs_members in Hin as [Ha Hb].
  split; by apply f64_item_statistics_has.
Qed.

Lemma f64_merge_item_stats_multi (rows : list Float64.pair_row)
    (stats : list Float64.item_stat) :
  Float64.merge_item_stats
    (Float64.rename_columns
       [("level_0", "item_A"); ("level_1", "item_B")]%string
       (Float64.reset_index (Float64.IndexedFrame MultiIndex2 rows)))
    stats
  = Ok (Float64.merge_on (λ l, (Float64.pair_key l.1).2)
          (Float64.merge_on (λ p, (Float64.pair_key p).1) rows stats) stats).
Proof. reflexivity. Qed.

Lemma f64_merge_item_stats_plain (rows : list Float64.pair_row)
    (stats : list Float64.item_stat) :
  Float64.merge_item_stats
    (Float64.rename_columns
       [("level_0", "item_A"); ("level_1", "item_B")]%string
       (Float64.reset_index (Float64.IndexedFrame PlainIndex rows)))
    stats
  = Raise (KeyError "item_A").
Proof. reflexivity. Qed.

Lemma f64_association_rules_eq (order_item : Series) (min_support : spec_float) :
  Float64.association_rules order_item min_support =
  match Float64.counted_pairs order_item min_support with
  | [] => Raise (KeyError "item_A")
  | _ :: _ =>
      Ok (Float64.sort_by_lift_desc
            (Float64.add_metrics
               <$> Float64.merged_pairs order_item min_support))
  end.
Proof.
  unfold Float64.association_rules, Float64.merged_pairs,
    Float64.surviving_pairs, Float64.final_item_stats, Float64.counted_pairs,
    Float64.qualifying_order_count, Float64.stage_orders, Float64.stage_items,
    Float64.pair_statistics, Float64.filter_pairs.
  cbn [Float64.frame_rows Float64.frame_index].
  destruct (freq (PyIterable (get_item_pairs _))) as [|kv counts].
  - by rewrite f64_merge_item_stats_plain.
  - by rewrite f64_merge_item_stats_multi.
Qed.

Lemma f64_merged_pairs_fst (order_item : Series) (min_support : spec_float) :
  (Float64.merged_pairs order_item min_support).*1.*1
  = Float64.surviving_pairs order_item min_support.
Proof.
  unfold Float64.merged_pairs.
  pose proof (f64_item_statistics_NoDup
                (Float64.stage_orders order_item min_support)) as Hnd.
  assert (H1 : (Float64.merge_on (λ p, (Float64.pair_key p).1)
                  (Float64.surviving_pairs order_item min_support)
                  (Float64.final_item_stats order_item min_support)).*1
               = Float64.surviving_pairs order_item min_support).
  { apply f64_merge_on_fst; [done|]. intros p Hp.
    by apply f64_surviving_pairs_members in Hp as [? _]. }
  rewrite f64_merge_on_fst; [done|done|].
  intros [p a] Hpa. simpl.
  assert (Hp : p ∈ Float64.surviving_pairs order_item min_support).
  { rewrite <- H1. apply list_elem_of_fmap. by exists (p, a). }
  by apply f64_surviving_pairs_members in Hp as [_ ?].
Qed.

Lemma f64_rule_pair_add_metrics
    (m : Float64.pair_row * Float64.item_stat * Float64.item_stat) :
  Float64.rule_pair (Float64.add_metrics m) = m.1.1.
Proof. by destruct m as [[[[a b] f s] sa] sb]. Qed.

Lemma f64_association_rules_Permutation (order_item : Series)
    (min_support : spec_float) out :
  Float64.association_rules order_item min_support = Ok out →
  Float64.rule_pair <$> out ≡ₚ Float64.surviving_pairs order_item min_support.
Proof.
  rewrite f64_association_rules_eq.
  destruct (Float64.counted_pairs order_item min_support); [done|].
  intros [= <-]. unfold Float64.sort_by_lift_desc.
  rewrite merge_sort_Permutation, <- f64_merged_pairs_fst,
    <- !list_fmap_compose.
  erewrite list_fmap_ext; [reflexivity|].
  intros i m _. apply f64_rule_pair_add_metrics.
Qed.

(** IEEE equality is symmetric, and equal floats compare [>=]. *)
Lemma SFeqb_sym (x y : spec_float) : SFeqb x y = SFeqb y x.
Proof.
  unfold SFeqb, SFcompare.
  destruct x as [sx|sx| |sx mx ex], y as [sy|sy| |sy my ey];
    try reflexivity; try (by destruct sx); try (by destruct sy);
    try (by destruct sx, sy).
  change (Pos.compare_cont Eq mx my) with (Pos.compare mx my).
  change (Pos.compare_cont Eq my mx) with (Pos.compare my mx).
  rewrite (Z.compare_antisym ex ey), (Pos.compare_antisym mx my).
  destruct sx, sy, (ex ?= ey)%Z, (mx ?= my)%positive; reflexivity.
Qed.

Lemma SFeqb_ge (x y : spec_float) : SFeqb x y = true → Float64.ge x y = true.
Proof.
  rewrite SFeqb_sym. unfold SFeqb, Float64.ge, SFleb.
  by destruct (SFcompare y x) as [[]|].
Qed.

(** C3: on binary64 columns, the support of a counted pair is the float
    [freqAB / N * 100], the quotient of the two converted integers rounded
    and then the product with [100.0] rounded, where [N] is the number of
    orders that keep at least two rows after the item filter (the length
    of [qualifying_orders], which lists each such order once), not the
    number of orders of the input.  A run that returns, returns exactly
    the counted pairs whose support [>=] the threshold in the float
    comparison, each once; a pair whose support is equal to
    [min_support] is among them. *)
Theorem pair_support_threshold (order_item : Series)
    (min_support : spec_float) out :
  Float64.association_rules order_item min_support = Ok out →
  let kept_orders :=
    qualifying_orders (Float64.stage_items order_item min_support) in
  let N := length kept_orders in
  let counts :=
    freq (PyIterable
            (get_item_pairs (Float64.stage_orders order_item min_support))) in
  let support (f : nat) : spec_float :=
    SFmul 53 1024
      (SFdiv 53 1024 (binary_normalize 53 1024 (Z.of_nat f) 0 false)
                     (binary_normalize 53 1024 (Z.of_nat N) 0 false))
      (binary_normalize 53 1024 100 0 false) in
  (NoDup kept_orders
   ∧ ∀ o, o ∈ kept_orders
          ↔ 2 ≤ occurrences o
                  (index (Float64.stage_items order_item min_support)))
  ∧ (∀ r, r ∈ out →
       ((Float64.item_A r, Float64.item_B r), Float64.freqAB r) ∈ counts
       ∧ Float64.supportAB r = support (Float64.freqAB r)
       ∧ SFleb min_support (Float64.supportAB r) = true)
  ∧ (∀ a b f, ((a, b), f) ∈ counts → SFleb min_support (support f) = true →
       ∃ r, r ∈ out ∧ Float64.item_A r = a ∧ Float64.item_B r = b
            ∧ Float64.freqAB r = f ∧ Float64.supportAB r = support f)
  ∧ (∀ a b f, ((a, b), f) ∈ counts → SFeqb (support f) min_support = true →
       ∃ r, r ∈ out ∧ Float64.item_A r = a ∧ Float64.item_B r = b
            ∧ Float64.freqAB r = f)
  ∧ NoDup ((λ r, (Float64.item_A r, Float64.item_B r)) <$> out).
Proof.
  intros Hrun kept_orders N counts support.
  pose proof (f64_association_rules_Permutation _ _ _ Hrun) as Hperm.
  assert (Hsupport : ∀ f, support f = Float64.percent f N) by reflexivity.
  assert (Hkeep : ∀ a b f, ((a, b), f) ∈ counts →
            SFleb min_support (support f) = true →
            ∃ r, r ∈ out ∧ Float64.item_A r = a ∧ Float64.item_B r = b
                 ∧ Float64.freqAB r = f ∧ Float64.supportAB r = support f).
  { intros a b f Hc Hms.
    assert (Hp : Float64.PairRow (a, b) f (support f)
                 ∈ Float64.surviving_pairs order_item min_support)
      by (by apply f64_surviving_pairs_elem).
    rewrite <- Hperm in Hp. apply list_elem_of_fmap in Hp as (r & Heq & Hr).
    injection Heq as -> -> -> Hs. exists r. by rewrite <- Hs. }
  split; [|split; [|split; [|split]]].
  - split; [apply qualifying_orders_NoDup|]. apply qualifying_orders_elem.
  - intros r Hr.
    assert (Hp : Float64.rule_pair r
                 ∈ Float64.surviving_pairs order_item min_support).
    { rewrite <- Hperm. by apply list_elem_of_fmap_2. }
    by apply f64_surviving_pairs_elem in Hp.
  - done.
  - intros a b f Hc Heq. destruct (Hkeep a b f Hc) as (r & ? & ? & ? & ? & _).
    + by apply (SFeqb_ge (support f) min_support).
    + eauto.
  - pose proof (f64_surviving_pairs_NoDup order_item min_support) as Hnd.
    rewrite <- Hperm, <- list_fmap_compose in Hnd. done.
Qed.

Lemma pair_support_threshold_witness :
  ∃ out, Float64.association_rules example_orders (S754_zero false) = Ok out
    ∧ length out = 3
    ∧ ∀ r, r ∈ out → SFleb (S754_zero false) (Float64.supportAB r) = true.
Proof.
  eexists. split; [vm_compute; reflexivity|]. split; [reflexivity|].
  intros r Hr.
  eapply (pair_support_threshold example_orders (S754_zero false)) in Hr;
    [|vm_compute; reflexivity].
  by destruct Hr as (_ & _ & ?).
Defined.

(** The order count under the pair supports is not the number of orders
    of the input: here 1 of 2 orders qualifies and the one pair has
    support [1 / 1 * 100]. *)
Example denominator_not_raw_count :
  order_count mixed_orders = 2
  ∧ Float64.qualifying_order_count mixed_orders (S754_zero false) = 1
  ∧ (Float64.supportAB
       <$> default [] (match Float64.association_rules mixed_orders
                               (S754_zero false) with
                       | Ok out => Some out
                       | Raise _ => None
                       end)) = [Float64.of_int 100].
Proof. repeat split; vm_compute; reflexivity. Qed.

(** Rounding at the threshold: the pair [(10, 20)] is counted in 23 of 40
    qualifying orders, and [23 / 40 * 100] is the float just below
    [57.5]; with the threshold [57.5] the pair is dropped, with that
    float as threshold it is kept. *)
Example threshold_rounding :
  let below := S754_finite false 8092405580431359 (-47) in
  let fifty_seven_and_a_half := S754_finite false 8092405580431360 (-47) in
  Float64.div (Float64.of_int 115) (Float64.of_int 2) = fifty_seven_and_a_half
  ∧ Float64.percent 23 40 = below
  ∧ Float64.counted_pairs threshold_orders fifty_seven_and_a_half
    = [((10, 20)%Z, 23); ((20, 10)%Z, 17)]
  ∧ Float64.association_rules threshold_orders fifty_seven_and_a_half = Ok []
  ∧ (λ r, (Float64.item_A r, Float64.item_B r, Float64.freqAB r))
      <$> default [] (match Float64.association_rules threshold_orders below with
                      | Ok out => Some out
                      | Raise _ => None
                      end)
    = [((10, 20)%Z, 23)].
Proof. repeat split; vm_compute; reflexivity. Qed.

(** C4: no metric divides by zero.  For every [min_support] (positive or
    not) and every returned row, both members are rows of the item
    statistics recomputed on the filtered stream, with a count of at
    least 1 over a nonzero order count; so [supportA], [supportB] and
    their product, the three divisors of the metrics, are nonzero. *)
Theorem metrics_divisors_nonzero (order_item : Series) (min_support : Q) out r :
  association_rules order_item min_support = Ok out → r ∈ out →
  rule_stat_A r ∈ item_statistics (stage_orders order_item min_support)
  ∧ rule_stat_B r ∈ item_statistics (stage_orders order_item min_support)
  ∧ 1 ≤ freqA r ∧ 1 ≤ freqB r
  ∧ 0 < order_count (stage_orders order_item min_support)
  ∧ supportA r
    = percent (freqA r) (order_count (stage_orders order_item min_support))
  ∧ supportB r
    = percent (freqB r) (order_count (stage_orders order_item min_support))
  ∧ ¬ (supportA r == 0)%Q
  ∧ ¬ (supportB r == 0)%Q
  ∧ ¬ (supportA r * supportB r == 0)%Q.
Proof.
  intros Hrun Hr.
  destruct (association_rules_stats _ _ _ _ Hrun Hr) as [Ha Hb].
  unfold final_item_stats in *.
  pose proof (item_statistics_pos _ _ Ha) as (Hfa & Hn & Hsa).
  pose proof (item_statistics_pos _ _ Hb) as (Hfb & _ & Hsb).
  pose proof (proj1 (item_statistics_elem _ _) Ha) as (_ & _ & Hpa).
  pose proof (proj1 (item_statistics_elem _ _) Hb) as (_ & _ & Hpb).
  simpl in *.
  split; [done|]. split; [done|]. split; [lia|]. split; [lia|].
  split; [done|]. split; [done|]. split; [done|].
  split; [by apply Qpos_nonzero|]. split; [by apply Qpos_nonzero|].
  apply Qpos_nonzero. by apply Qmult_lt_0_compat.
Qed.

Lemma metrics_divisors_nonzero_witness :
  ∃ out r, association_rules example_orders (1 # 2) = Ok out ∧ r ∈ out
    ∧ ¬ (supportA r == 0)%Q ∧ ¬ (supportB r == 0)%Q
    ∧ ¬ (supportA r * supportB r == 0)%Q.
Proof.
  eexists. eexists.
  assert (Hrun : association_rules example_orders (1 # 2) = Ok _)
    by (vm_compute; reflexivity).
  split; [exact Hrun|].
  assert (Hin : ∀ (x : rule) l, x ∈ x :: l) by (intros; left).
  split; [apply Hin|].
  destruct (metrics_divisors_nonzero example_orders (1 # 2) _ _ Hrun (Hin _ _))
    as (_ & _ & _ & _ & _ & _ & _ & HA & HB & HAB).
  exact (conj HA (conj HB HAB)).
Defined.

(** C6: over the rationals, for every returned row,
    [confidenceAtoB * supportA] and [confidenceBtoA * supportB] are both
    equal to [supportAB], hence to each other. *)
Theorem confidence_support_products (order_item : Series) (min_support : Q) out r :
  association_rules order_item min_support = Ok out → r ∈ out →
  (confidenceAtoB r * supportA r == supportAB r)%Q
  ∧ (confidenceBtoA r * supportB r == supportAB r)%Q
  ∧ (confidenceAtoB r * supportA r == confidenceBtoA r * supportB r)%Q.
Proof.
  intros Hrun Hr.
  destruct (association_rules_support_pos _ _ _ _ Hrun Hr) as [Ha Hb].
  apply Qpos_nonzero in Ha, Hb.
  destruct (association_rules_row _ _ _ _ Hrun Hr) as (p & a & b & -> & _).
  simpl in *.
  assert (H1 : (pair_supportAB p / stat_support a * stat_support a
                == pair_supportAB p)%Q)
    by (rewrite Qmult_comm; by apply Qmult_div_r).
  assert (H2 : (pair_supportAB p / stat_support b * stat_support b
                == pair_supportAB p)%Q)
    by (rewrite Qmult_comm; by apply Qmult_div_r).
  split; [done|]. split; [done|]. by rewrite H1, H2.
Qed.

Lemma confidence_support_products_witness :
  ∃ out r, association_rules example_orders 0 = Ok out ∧ r ∈ out
    ∧ (confidenceAtoB r * supportA r == confidenceBtoA r * supportB r)%Q.
Proof.
  eexists. eexists.
  assert (Hrun : association_rules example_orders 0 = Ok _)
    by (vm_compute; reflexivity).
  split; [exact Hrun|].
  assert (Hin : ∀ (x : rule) l, x ∈ x :: l) by (intros; left).
  split; [apply Hin|].
  by destruct (confidence_support_products example_orders 0 _ _ Hrun (Hin _ _))
    as (_ & _ & ?).
Defined.

(** C9: the returned sequence is sorted by lift in descending order:
    the lift of every row is at least the lift of the row after it (and
    of every later row).  Nothing is said on rows of equal lift. *)
Theorem rules_sorted_by_lift (order_item : Series) (min_support : Q) out :
  association_rules order_item min_support = Ok out →
  (∀ i r1 r2, out !! i = Some r1 → out !! S i = Some r2 →
     (lift r2 <= lift r1)%Q)
  ∧ StronglySorted lift_desc out.
Proof.
  intros [_ ->]%association_rules_Ok.
  assert (Hs : StronglySorted lift_desc
                 (sort_by_lift_desc
                    (add_metrics <$> merged_pairs order_item min_support)))
    by apply (StronglySorted_merge_sort lift_desc).
  split; [|done]. intros i r1 r2 H1 H2.
  apply (StronglySorted_adjacent lift_desc _ i r1 r2 Hs H1 H2).
Qed.

Lemma rules_sorted_by_lift_witness :
  ∃ out, association_rules example_orders 0 = Ok out
    ∧ length out = 3
    ∧ StronglySorted lift_desc out.
Proof.
  eexists.
  assert (Hrun : association_rules example_orders 0 = Ok _)
    by (vm_compute; reflexivity).
  split; [exact Hrun|]. split; [reflexivity|].
  by destruct (rules_sorted_by_lift example_orders 0 _ Hrun) as [_ ?].
Defined.

(** C10: after the order-size filter the order ids left in the stream
    are exactly the qualifying orders (those with at least two rows after
    the item filter), so [order_count] of the filtered stream, under the
    item supports, equals [len(qualifying_orders)], under the pair
    supports: both kinds of support are percentages of one order count. *)
Theorem support_denominators_agree (order_item : Series) (min_support : Q) :
  let pruned := stage_items order_item min_support in
  let kept := stage_orders order_item min_support in
  (list_to_set (index kept) : gset Z) = list_to_set (qualifying_orders pruned)
  ∧ (∀ o, o ∈ qualifying_orders pruned ↔ 2 ≤ occurrences o (index pruned))
  ∧ order_count kept = length (qualifying_orders pruned)
  ∧ (∀ s, s ∈ final_item_stats order_item min_support →
       stat_support s
       = percent (stat_freq s) (qualifying_order_count order_item min_support))
  ∧ (∀ p, p ∈ surviving_pairs order_item min_support →
       pair_supportAB p
       = percent (pair_freqAB p) (qualifying_order_count order_item min_support)).
Proof.
  intros pruned kept.
  assert (Hset : (list_to_set (index kept) : gset Z)
                 = list_to_set (qualifying_orders pruned)).
  { apply set_eq. intros o. rewrite !elem_of_list_to_set.
    apply filter_orders_index. }
  assert (Hcount : order_count kept = length (qualifying_orders pruned)).
  { unfold order_count. rewrite Hset. apply size_list_to_set.
    apply qualifying_orders_NoDup. }
  split; [done|]. split; [apply qualifying_orders_elem|]. split; [done|]. split.
  - intros s Hs. apply item_statistics_elem in Hs as (_ & _ & ->).
    fold kept. by rewrite Hcount.
  - intros p Hp. by apply surviving_pairs_elem in Hp as (_ & ? & _).
Qed.

(** ** Runs that count no pair *)

Lemma occurrences_index_filter (P : Z * Z → Prop) `{∀ row, Decision (P row)}
    (order_item : Series) (o : Z) :
  occurrences o (index (filter P order_item)) ≤ occurrences o (index order_item).
Proof.
  unfold index. induction order_item as [|row rest IH]; [done|].
  rewrite filter_cons. destruct (decide (P row)).
  - rewrite !fmap_cons, !occurrences_cons. lia.
  - rewrite fmap_cons, occurrences_cons. lia.
Qed.

Lemma filter_orders_nil (order_item : Series) : filter_orders order_item [] = [].
Proof.
  unfold filter_orders. induction order_item as [|row rest IH]; [done|].
  rewrite filter_cons. destruct (decide (row.1 ∈ [])) as [Hin|_]; [|done].
  by apply elem_of_nil in Hin.
Qed.

(** When no order of the input has two rows, no pair is counted and the
    pipeline raises. *)
Lemma no_two_item_order_raises (order_item : Series) (min_support : Q) :
  (∀ o, occurrences o (index order_item) ≤ 1) →
  association_rules order_item min_support = Raise (KeyError "item_A").
Proof.
  intros Hsmall. rewrite association_rules_eq.
  unfold counted_pairs, stage_orders.
  assert (Hq : qualifying_orders (stage_items order_item min_support) = []).
  { apply elem_of_nil_inv. intros o Ho. apply qualifying_orders_elem in Ho.
    unfold stage_items, filter_items in Ho.
    pose proof (occurrences_index_filter
                  (λ row, row.2 ∈ qualifying_items
                                     (item_statistics order_item) min_support)
                  order_item o).
    specialize (Hsmall o). lia. }
  by rewrite Hq, filter_orders_nil.
Qed.

(** When pairs are counted the pipeline returns; if none of them reaches
    [min_support] it returns the empty table. *)
Lemma counted_pairs_return (order_item : Series) (min_support : Q) :
  counted_pairs order_item min_support ≠ [] →
  ∃ out, association_rules order_item min_support = Ok out
    ∧ (surviving_pairs order_item min_support = [] → out = []).
Proof.
  intros Hne. rewrite association_rules_eq.
  destruct (counted_pairs order_item min_support); [done|].
  eexists. split; [done|]. intros Hnil.
  unfold merged_pairs. by rewrite Hnil.
Qed.

(** The pair supports divide by a zero order count only on an empty pair
    table. *)
Lemma pair_percent_denominator (order_item : Series) (min_support : Q) :
  qualifying_order_count order_item min_support = 0 →
  counted_pairs order_item min_support = [].
Proof.
  unfold qualifying_order_count, counted_pairs, stage_orders.
  intros ->%nil_length_inv. by rewrite filter_orders_nil.
Qed.

(** C7: on the empty stream, on a stream in which no order has two
    items, and on the sample stream with a threshold that no item
    reaches, the pipeline does not return an empty rule set: the empty
    pair table has no [item_A] column and [merge_item_stats] raises
    [KeyError]. *)
Theorem no_pairs_raises_KeyError (min_support : Q) :
  association_rules [] min_support = Raise (KeyError "item_A")
  ∧ association_rules single_item_orders min_support
    = Raise (KeyError "item_A")
  ∧ association_rules example_orders 101 = Raise (KeyError "item_A")
  ∧ key_columns
      (rename_columns [("level_0", "item_A"); ("level_1", "item_B")]%string
         (reset_index (filter_pairs (pair_statistics [] 0) min_support)))
    = ["index"%string].
Proof.
  split; [|split; [|split; [vm_compute; reflexivity|reflexivity]]].
  - apply no_two_item_order_raises. intros o.
    change (index []) with (@nil Z). rewrite occurrences_nil. lia.
  - apply no_two_item_order_raises. intros o.
    unfold single_item_orders, index.
    rewrite !fmap_cons, !occurrences_cons. simpl.
    change (occurrences o []) with 0.
    repeat case_decide; lia.
Qed.

(** ** Orderings of the pair keys *)

(** A group is a block of the rows of its order. *)
Lemma groupby_group_block (order_item : Series) (k : Z) (g : list (Z * Z)) :
  (k, g) ∈ groupby fst order_item →
  ∃ before after,
    order_items order_item k = before ++ (snd <$> g) ++ after.
Proof.
  intros Hin. apply list_elem_of_split in Hin as (G1 & G2 & HG).
  pose proof (groupby_keyed fst order_item) as Hkeyed.
  pose proof (groupby_concat fst order_item) as Hcat.
  rewrite HG in Hkeyed, Hcat. unfold order_items. rewrite <- Hcat.
  apply Forall_app in Hkeyed as [_ Hkeyed].
  apply Forall_cons in Hkeyed as [Hg _]. simpl in Hg.
  rewrite bind_app. cbn [mbind list_bind]. rewrite !filter_app, !fmap_app.
  exists (snd <$> filter (λ row, row.1 = k) (G1 ≫= snd)),
         (snd <$> filter (λ row, row.1 = k) (G2 ≫= snd)).
  do 3 f_equal. simpl.
  clear -Hg. induction Hg as [|row g Hrow Hg IH]; [done|].
  by rewrite filter_cons, decide_True, IH.
Qed.

(** When every order lists its items in ascending order, every pair key
    has its smaller member first, so no pair occurs under both orderings. *)
Lemma ascending_orders_canonical (order_item : Series) :
  (∀ o, StronglySorted Z.lt (order_items order_item o)) →
  ∀ a b, (a, b) ∈ get_item_pairs order_item →
    (a < b)%Z ∧ (b, a) ∉ get_item_pairs order_item.
Proof.
  intros Hasc.
  assert (Hlt : ∀ a b, (a, b) ∈ get_item_pairs order_item → (a < b)%Z).
  { intros a b. unfold get_item_pairs. rewrite list_elem_of_bind.
    intros ([k g] & Hab & Hg).
    apply combinations2_elem in Hab as (l1 & l2 & l3 & Heq).
    apply groupby_group_block in Hg as (before & after & Hblock).
    specialize (Hasc k). rewrite Hblock, Heq in Hasc.
    apply StronglySorted_app in Hasc as (_ & _ & Hasc).
    apply StronglySorted_app in Hasc as (_ & Hasc & _).
    apply StronglySorted_app in Hasc as (_ & _ & Hasc).
    apply StronglySorted_inv in Hasc as [_ Hall].
    eapply Forall_forall in Hall; [done|].
    rewrite elem_of_app, elem_of_cons. auto. }
  intros a b Hab. split; [by apply Hlt|].
  intros Hba. apply Hlt in Hab, Hba. lia.
Qed.

(** C1: on a grouped stream with two orders that hold the same two items
    in opposite stream order, the generator yields both [(10, 20)] and
    [(20, 10)]; both are keys of the pair counts, each with count 1, and
    both are rows of the returned table.  A pair key keeps the stream
    order of its members; it is not put in a canonical order. *)
Theorem swapped_orders_both_orderings :
  grouped swapped_orders = true
  ∧ get_item_pairs swapped_orders = [(10, 20); (20, 10)]%Z
  ∧ counted_pairs swapped_orders 0
    = [((10, 20)%Z, 1); ((20, 10)%Z, 1)]
  ∧ ∃ out, association_rules swapped_orders 0 = Ok out
      ∧ (λ r, (item_A r, item_B r, freqAB r)) <$> out
        = [((10, 20)%Z, 1); ((20, 10)%Z, 1)].
Proof.
  split; [reflexivity|]. split; [reflexivity|].
  split; [vm_compute; reflexivity|].
  eexists. split; vm_compute; reflexivity.
Qed.

(** C5: the lift of the pair [(10, 20)] and the lift of the pair
    [(20, 10)] differ in the returned table.  Of three orders that all
    hold items 10 and 20, two list 10 first and one lists 20 first; the
    table has a row for each ordering with the count of that ordering
    alone (2 and 1), so the two lifts are [1/150] and [1/300].  The
    formula of a row is symmetric, the table is not: the keys are not
    canonical. *)
Theorem lift_differs_between_orderings :
  ∃ r1 r2 out, association_rules uneven_orders 0 = Ok out
    ∧ out = [r1; r2]
    ∧ (item_A r1, item_B r1) = (10, 20)%Z
    ∧ (item_A r2, item_B r2) = (20, 10)%Z
    ∧ freqAB r1 = 2 ∧ freqAB r2 = 1
    ∧ (supportA r1 == supportB r2)%Q ∧ (supportB r1 == supportA r2)%Q
    ∧ lift r1 = (supportAB r1 / (supportA r1 * supportB r1))%Q
    ∧ lift r2 = (supportAB r2 / (supportA r2 * supportB r2))%Q
    ∧ (lift r1 == 1 # 150)%Q ∧ (lift r2 == 1 # 300)%Q
    ∧ ¬ (lift r1 == lift r2)%Q.
Proof.
  do 3 eexists. split; [vm_compute; reflexivity|].
  split; [reflexivity|]. by repeat split.
Qed.
